(** * dynamic-form: the multi-step questionnaire wizard

    A shallow embedding of [src/components/MultiStepForm.tsx] (the wizard
    component that [App] mounts) and of the second, inline copy of the same
    logic that [src/App.tsx] still carries, together with the fragment of the
    ECMAScript runtime the component calls ([String], [trim], [includes],
    [parseInt], [JSON.stringify], [JSON.parse], property reads and writes).

    Conventions of the model.
    - A JS string is a [string]: a sequence of code units, here the units
      0..255.
    - A JS number is a [number]: [NaN] or an integer-valued double [Int z]
      (exact for |z| <= 2^53, which covers every index and every literal the
      wizard produces; beyond it [parseInt] and [toString] round, which the
      model does not follow).
    - A plain object is the list of its own enumerable properties in
      own-property order (array-index keys ascending, then the other keys in
      insertion order).  A property read follows the prototype chain: a key
      that is no own property but names a member of [Object.prototype] yields
      that member ([get], [Object_prototype]).  A write defines an own
      property; the one key for which the assignment in the validation loop
      does not, [__proto__], is outside the model.
    - [String(v)] returns on the [printable] values; on an object with an own
      [toString] property it raises, which [ToString] does not show.
    - A call that raises is a [Throw]; React unmounts the tree when a render or
      an effect throws, so a [Throw] is a fatal failure of the wizard.
    - State set in a handler or an effect is applied in the render that
      follows; an effect runs after the render that changed one of its
      dependencies, each mount effect once.
    - [Unmodelled] marks inputs outside the fragment (a JSON number with a
      fraction or exponent, an escape above code unit 255, persisted answers
      that are valid JSON but not an object): the model says nothing there. *)

From Stdlib Require Import String Ascii List ZArith Bool Lia PeanoNat DecimalString
  DecimalPos.
Import ListNotations.
Local Open Scope string_scope.

(* ===================================================================== *)
(** * The ECMAScript fragment *)
(* ===================================================================== *)

Module JS.

Inductive number : Type :=
| NaN
| Int (z : Z).

Local Unset Elimination Schemes.

Inductive value : Type :=
| VUndefined
| VNull
| VBool (b : bool)
| VNum (n : number)
| VStr (s : string)
| VArr (items : list value)
| VObj (props : list (string * value))
| VFile (name : string)
| VFunction (name : string).

Local Set Elimination Schemes.

(** A plain object with property values of type [A], in own-property order. *)
Definition object (A : Type) : Type := list (string * A).

Inductive error : Type :=
| SyntaxError
| TypeError.

Inductive completion (A : Type) : Type :=
| Normal (a : A)
| Throw (e : error)
| Unmodelled.

Arguments Normal {A} a.
Arguments Throw {A} e.
Arguments Unmodelled {A}.

Definition bind {A B : Type} (c : completion A) (k : A -> completion B) : completion B :=
  match c with
  | Normal a => k a
  | Throw e => Throw e
  | Unmodelled => Unmodelled
  end.

Notation "x <- c ;; k" := (bind c (fun x => k))
  (at level 61, c at next level, right associativity).

(** ** Characters and strings *)

Definition code (c : ascii) : nat := nat_of_ascii c.

Definition chr (n : nat) : ascii := ascii_of_nat n.

Definition code_is (c : ascii) (n : nat) : bool := Nat.eqb (code c) n.

Definition str1 (c : ascii) : string := String c EmptyString.

(** The double quote and the backslash, by code unit. *)
Definition dquote : ascii := chr 34.
Definition bslash : ascii := chr 92.

(** WhiteSpace and LineTerminator code units below 256: TAB, LF, VT, FF, CR,
    SP, NBSP. *)
Definition is_ws (c : ascii) : bool :=
  code_is c 9 || code_is c 10 || code_is c 11 || code_is c 12 || code_is c 13
  || code_is c 32 || code_is c 160.

Fixpoint trimStart (s : string) : string :=
  match s with
  | EmptyString => EmptyString
  | String c r => if is_ws c then trimStart r else s
  end.

Fixpoint trimEnd (s : string) : string :=
  match s with
  | EmptyString => EmptyString
  | String c r =>
      match trimEnd r with
      | EmptyString => if is_ws c then EmptyString else str1 c
      | r' => String c r'
      end
  end.

(** [String.prototype.trim] *)
Definition trim (s : string) : string := trimEnd (trimStart s).

Fixpoint join (sep : string) (l : list string) : string :=
  match l with
  | [] => ""
  | [x] => x
  | x :: r => x ++ sep ++ join sep r
  end.

(** ** Numbers *)

Definition decimal (z : Z) : string := NilZero.string_of_int (Z.to_int z).

(** [Number.prototype.toString] with radix 10. *)
Definition Number_toString (n : number) : string :=
  match n with
  | NaN => "NaN"
  | Int z => decimal z
  end.

(** [n + k] for an integer [k]. *)
Definition number_add (n : number) (k : Z) : number :=
  match n with
  | NaN => NaN
  | Int z => Int (z + k)
  end.

(** [l[n]]: the element at index [n], [None] ([undefined]) when [n] is no
    index of [l]. *)
Definition at_index {A : Type} (l : list A) (n : number) : option A :=
  match n with
  | NaN => None
  | Int z => if (0 <=? z)%Z then nth_error l (Z.to_nat z) else None
  end.

(** [Object.is] on numbers. *)
Definition number_is (a b : number) : bool :=
  match a, b with
  | NaN, NaN => true
  | Int x, Int y => Z.eqb x y
  | _, _ => false
  end.

Definition is_digit (c : ascii) : bool :=
  Nat.leb 48 (code c) && Nat.leb (code c) 57.

Definition digit_val (c : ascii) : Z := Z.of_nat (code c - 48).

(** The longest run of decimal digits a string starts with, read from the
    accumulator [acc] on, and the rest of the string. *)
Fixpoint digits_from (acc : Z) (s : string) : Z * string :=
  match s with
  | String c r => if is_digit c then digits_from (10 * acc + digit_val c) r else (acc, s)
  | EmptyString => (acc, s)
  end.

Definition starts_with_digit (s : string) : bool :=
  match s with
  | String c _ => is_digit c
  | EmptyString => false
  end.

(** [parseInt(s, 10)]: leading white space, an optional sign, then the longest
    run of decimal digits; [NaN] when there is none.  The digits are read
    exactly; the program rounds a result beyond 2^53 to a double. *)
Definition parseInt (s : string) : number :=
  let t := trimStart s in
  let '(neg, u) :=
    match t with
    | String c r =>
        if code_is c 45 then (true, r)
        else if code_is c 43 then (false, r)
        else (false, t)
    | EmptyString => (false, t)
    end in
  if starts_with_digit u
  then let z := fst (digits_from 0 u) in Int (if neg then - z else z)
  else NaN.

(** ** Coercion to string *)

(** [String(v)]: the ToString abstract operation.  An array is joined with
    commas, its undefined and null elements printing as nothing.  On a value
    that is not [printable] (below) the call raises instead of returning. *)
Fixpoint ToString (v : value) : string :=
  match v with
  | VUndefined => "undefined"
  | VNull => "null"
  | VBool true => "true"
  | VBool false => "false"
  | VNum n => Number_toString n
  | VStr s => s
  | VArr items =>
      join ","
        ((fix each (l : list value) : list string :=
            match l with
            | [] => []
            | x :: r =>
                match x with
                | VUndefined | VNull => ""
                | _ => ToString x
                end :: each r
            end) items)
  | VObj _ => "[object Object]"
  | VFile _ => "[object File]"
  | VFunction name => "function " ++ name ++ "() { [native code] }"
  end.


(** SameValueZero, the comparison of [Array.prototype.includes].  Arrays,
    objects and files are compared by identity; an element of the form
    definition and a stored answer are never the same object.  A built-in
    function is the same as itself. *)
Definition same_value_zero (a b : value) : bool :=
  match a, b with
  | VUndefined, VUndefined => true
  | VNull, VNull => true
  | VBool x, VBool y => Bool.eqb x y
  | VNum x, VNum y => number_is x y
  | VStr x, VStr y => String.eqb x y
  | VFunction x, VFunction y => String.eqb x y
  | _, _ => false
  end.

(** [l.includes(x)] on an array of strings. *)
Definition includes (l : list string) (x : string) : bool :=
  existsb (String.eqb x) l.

(** Truthiness: ToBoolean. *)
Definition truthy (v : value) : bool :=
  match v with
  | VUndefined | VNull => false
  | VBool b => b
  | VNum NaN => false
  | VNum (Int z) => negb (Z.eqb z 0)
  | VStr s => negb (String.eqb s "")
  | VArr _ | VObj _ | VFile _ | VFunction _ => true
  end.

(** ** Plain objects *)

Section Objects.
Context {A : Type}.

(** The own property [k] of [o], if any. *)
Fixpoint lookup (o : object A) (k : string) : option A :=
  match o with
  | [] => None
  | (k', v) :: r => if String.eqb k k' then Some v else lookup r k
  end.

Definition has_own (o : object A) (k : string) : bool :=
  match lookup o k with
  | Some _ => true
  | None => false
  end.

(** [Object.keys(o)] *)
Definition keys (o : object A) : list string := map fst o.

(** [delete o[k]] *)
Definition remove (o : object A) (k : string) : object A :=
  filter (fun kv => negb (String.eqb k (fst kv))) o.

Fixpoint replace (o : object A) (k : string) (v : A) : object A :=
  match o with
  | [] => []
  | (k', v') :: r => if String.eqb k k' then (k', v) :: r else (k', v') :: replace r k v
  end.

End Objects.

(** A key is an array index when it is the canonical decimal numeral of an
    integer below 2^32 - 1. *)
Definition all_digits (s : string) : bool :=
  forallb is_digit (list_ascii_of_string s).

Definition array_index (k : string) : option Z :=
  match k with
  | EmptyString => None
  | String c r =>
      if all_digits k && (negb (code_is c 48) || String.eqb r "")
      then let z := fst (digits_from 0 k) in
           if (z <? 4294967295)%Z then Some z else None
      else None
  end.

Section ObjectWrites.
Context {A : Type}.

(** Where a new array-index key goes: before the first key that is not an
    array index or is a larger one. *)
Fixpoint insert_index (o : object A) (i : Z) (k : string) (v : A) : object A :=
  match o with
  | [] => [(k, v)]
  | (k', v') :: r =>
      match array_index k' with
      | Some j => if (j <? i)%Z then (k', v') :: insert_index r i k v
                  else (k, v) :: o
      | None => (k, v) :: o
      end
  end.

(** [o[k] = v] on a plain object (and the effect of [{...o, [k]: v}]): an
    existing property keeps its place, a new one takes its place in
    own-property order. *)
Definition set (o : object A) (k : string) (v : A) : object A :=
  if has_own o k then replace o k v
  else match array_index k with
       | Some i => insert_index o i k v
       | None => (o ++ [(k, v)])%list
       end.

End ObjectWrites.

(** The properties of [Object.prototype], which every plain object inherits:
    the built-in methods, the [constructor] and the [__proto__] accessor,
    which on a plain object yields [Object.prototype] itself, an object
    without enumerable properties. *)
Definition Object_prototype_methods : list string :=
  ["__defineGetter__"; "__defineSetter__"; "hasOwnProperty"; "__lookupGetter__";
   "__lookupSetter__"; "isPrototypeOf"; "propertyIsEnumerable"; "toString";
   "valueOf"; "toLocaleString"].

Definition Object_prototype (k : string) : option value :=
  if String.eqb k "constructor" then Some (VFunction "Object")
  else if String.eqb k "__proto__" then Some (VObj [])
  else if existsb (String.eqb k) Object_prototype_methods then Some (VFunction k)
  else None.

(** Whether a plain object without the own property [k] still answers a read
    of [k]. *)
Definition inherited (k : string) : bool :=
  match Object_prototype k with
  | Some _ => true
  | None => false
  end.

(** [o[k]] on a plain object: the own property, else the inherited one, else
    [undefined]. *)
Definition get (o : object value) (k : string) : value :=
  match lookup o k with
  | Some v => v
  | None =>
      match Object_prototype k with
      | Some v => v
      | None => VUndefined
      end
  end.

(** ** JSON.stringify *)

Definition hex_digit (n : nat) : ascii :=
  if Nat.ltb n 10 then chr (48 + n) else chr (87 + n).

(** QuoteJSONString, one code unit: the two-character escapes, a six-character
    escape for the other control characters, the unit itself otherwise. *)
Definition quote_char (c : ascii) : string :=
  if code_is c 8 then "\b"
  else if code_is c 9 then "\t"
  else if code_is c 10 then "\n"
  else if code_is c 12 then "\f"
  else if code_is c 13 then "\r"
  else if code_is c 34 then String bslash (str1 dquote)
  else if code_is c 92 then String bslash (str1 bslash)
  else if Nat.ltb (code c) 32
       then "\u00" ++ String (hex_digit (code c / 16)) (str1 (hex_digit (code c mod 16)))
       else str1 c.

Fixpoint quote_body (s : string) : string :=
  match s with
  | EmptyString => EmptyString
  | String c r => quote_char c ++ quote_body r
  end.

Definition quote (s : string) : string :=
  String dquote (quote_body s ++ str1 dquote).

(** SerializeJSONProperty without a replacer or indentation: [None] is
    [undefined].  A property whose value serializes to [undefined] is left
    out of an object and printed as [null] in an array; a [File] has no own
    enumerable property. *)
Fixpoint JSON_stringify (v : value) : option string :=
  match v with
  | VUndefined => None
  | VNull => Some "null"
  | VBool true => Some "true"
  | VBool false => Some "false"
  | VNum NaN => Some "null"
  | VNum (Int z) => Some (decimal z)
  | VStr s => Some (quote s)
  | VArr items =>
      Some ("[" ++
            join ","
              ((fix each (l : list value) : list string :=
                  match l with
                  | [] => []
                  | x :: r =>
                      match JSON_stringify x with
                      | Some t => t
                      | None => "null"
                      end :: each r
                  end) items)
            ++ "]")
  | VObj props =>
      Some ("{" ++
            join ","
              ((fix each (l : list (string * value)) : list string :=
                  match l with
                  | [] => []
                  | (k, x) :: r =>
                      match JSON_stringify x with
                      | Some t => (quote k ++ ":" ++ t) :: each r
                      | None => each r
                      end
                  end) props)
            ++ "}")
  | VFile _ => Some "{}"
  | VFunction _ => None
  end.

(** ** JSON.parse *)

Inductive presult (A : Type) : Type :=
| POk (a : A) (rest : string)
| PSyntax
| PUnmodelled
| PFuel.

Arguments POk {A} a rest.
Arguments PSyntax {A}.
Arguments PUnmodelled {A}.
Arguments PFuel {A}.

(** JSON white space: TAB, LF, CR, SP. *)
Definition is_json_ws (c : ascii) : bool :=
  code_is c 9 || code_is c 10 || code_is c 13 || code_is c 32.

Fixpoint skip_ws (s : string) : string :=
  match s with
  | EmptyString => EmptyString
  | String c r => if is_json_ws c then skip_ws r else s
  end.

Definition hex_val (c : ascii) : option nat :=
  let n := code c in
  if Nat.leb 48 n && Nat.leb n 57 then Some (n - 48)
  else if Nat.leb 97 n && Nat.leb n 102 then Some (n - 87)
  else if Nat.leb 65 n && Nat.leb n 70 then Some (n - 55)
  else None.

Definition hex4 (a b c d : ascii) : option nat :=
  match hex_val a, hex_val b, hex_val c, hex_val d with
  | Some x, Some y, Some z, Some w => Some (((x * 16 + y) * 16 + z) * 16 + w)
  | _, _, _, _ => None
  end.

(** The character a two-character escape stands for. *)
Definition unescape (e : ascii) : option ascii :=
  if code_is e 34 then Some dquote
  else if code_is e 92 then Some bslash
  else if code_is e 47 then Some (chr 47)
  else if code_is e 98 then Some (chr 8)
  else if code_is e 102 then Some (chr 12)
  else if code_is e 110 then Some (chr 10)
  else if code_is e 114 then Some (chr 13)
  else if code_is e 116 then Some (chr 9)
  else None.

Definition pcons (c : ascii) (p : presult string) : presult string :=
  match p with
  | POk t rest => POk (String c t) rest
  | PSyntax => PSyntax
  | PUnmodelled => PUnmodelled
  | PFuel => PFuel
  end.

(** The characters of a JSON string after its opening quote, up to and with
    the closing one. *)
Fixpoint parse_chars (s : string) : presult string :=
  match s with
  | EmptyString => PSyntax
  | String c r =>
      if code_is c 34 then POk EmptyString r
      else if code_is c 92 then
        match r with
        | EmptyString => PSyntax
        | String e r1 =>
            if code_is e 117 then
              match r1 with
              | String h1 (String h2 (String h3 (String h4 r2))) =>
                  match hex4 h1 h2 h3 h4 with
                  | Some n => if Nat.ltb n 256 then pcons (chr n) (parse_chars r2)
                              else PUnmodelled
                  | None => PSyntax
                  end
              | _ => PSyntax
              end
            else
              match unescape e with
              | Some ch => pcons ch (parse_chars r1)
              | None => PSyntax
              end
        end
      else if Nat.ltb (code c) 32 then PSyntax
      else pcons c (parse_chars r)
  end.

Definition starts_fraction_or_exponent (s : string) : bool :=
  match s with
  | String c _ => code_is c 46 || code_is c 101 || code_is c 69
  | EmptyString => false
  end.

(** A JSON number, from its sign or first digit.  A literal with a fraction
    or an exponent, or beyond 2^53, is outside the fragment. *)
Definition parse_number (s : string) : presult value :=
  let '(neg, u) :=
    match s with
    | String c r => if code_is c 45 then (true, r) else (false, s)
    | EmptyString => (false, s)
    end in
  match u with
  | EmptyString => PSyntax
  | String d r =>
      if is_digit d then
        let '(z, rest) := if code_is d 48 then (0%Z, r) else digits_from 0 u in
        if starts_fraction_or_exponent rest then PUnmodelled
        else if (z <=? 9007199254740992)%Z
             then POk (VNum (Int (if neg then - z else z))) rest
             else PUnmodelled
      else PSyntax
  end.

(** [strip p s]: the rest of [s] after the prefix [p]. *)
Fixpoint strip (p s : string) : option string :=
  match p, s with
  | EmptyString, _ => Some s
  | String a p', String b s' => if Ascii.eqb a b then strip p' s' else None
  | String _ _, EmptyString => None
  end.

(** The members of an object are defined one after the other, a repeated key
    keeping the last value. *)
Definition define_all (l : list (string * value)) : object value :=
  fold_left (fun o kv => set o (fst kv) (snd kv)) l [].

Fixpoint parse_value (fuel : nat) (s : string) : presult value :=
  match fuel with
  | O => PFuel
  | S f =>
      match skip_ws s with
      | EmptyString => PSyntax
      | String c r =>
          if code_is c 123 then
            match skip_ws r with
            | EmptyString => PSyntax
            | String c' r' =>
                if code_is c' 125 then POk (VObj []) r'
                else match parse_members f r with
                     | POk l rest => POk (VObj (define_all l)) rest
                     | PSyntax => PSyntax
                     | PUnmodelled => PUnmodelled
                     | PFuel => PFuel
                     end
            end
          else if code_is c 91 then
            match skip_ws r with
            | EmptyString => PSyntax
            | String c' r' =>
                if code_is c' 93 then POk (VArr []) r'
                else match parse_elements f r with
                     | POk l rest => POk (VArr l) rest
                     | PSyntax => PSyntax
                     | PUnmodelled => PUnmodelled
                     | PFuel => PFuel
                     end
            end
          else if code_is c 34 then
            match parse_chars r with
            | POk t rest => POk (VStr t) rest
            | PSyntax => PSyntax
            | PUnmodelled => PUnmodelled
            | PFuel => PFuel
            end
          else if is_digit c || code_is c 45 then parse_number (String c r)
          else
            match strip "true" (String c r), strip "false" (String c r),
                  strip "null" (String c r) with
            | Some rest, _, _ => POk (VBool true) rest
            | _, Some rest, _ => POk (VBool false) rest
            | _, _, Some rest => POk VNull rest
            | _, _, _ => PSyntax
            end
      end
  end

with parse_elements (fuel : nat) (s : string) : presult (list value) :=
  match fuel with
  | O => PFuel
  | S f =>
      match parse_value f s with
      | POk v r =>
          match skip_ws r with
          | EmptyString => PSyntax
          | String c r' =>
              if code_is c 44 then
                match parse_elements f r' with
                | POk vs rest => POk (v :: vs) rest
                | e => e
                end
              else if code_is c 93 then POk [v] r'
              else PSyntax
          end
      | PSyntax => PSyntax
      | PUnmodelled => PUnmodelled
      | PFuel => PFuel
      end
  end

with parse_members (fuel : nat) (s : string) : presult (list (string * value)) :=
  match fuel with
  | O => PFuel
  | S f =>
      match skip_ws s with
      | EmptyString => PSyntax
      | String q r =>
          if code_is q 34 then
            match parse_chars r with
            | POk k r1 =>
                match skip_ws r1 with
                | EmptyString => PSyntax
                | String c r2 =>
                    if code_is c 58 then
                      match parse_value f r2 with
                      | POk v r3 =>
                          match skip_ws r3 with
                          | EmptyString => PSyntax
                          | String c' r4 =>
                              if code_is c' 44 then
                                match parse_members f r4 with
                                | POk l rest => POk ((k, v) :: l) rest
                                | e => e
                                end
                              else if code_is c' 125 then POk [(k, v)] r4
                              else PSyntax
                          end
                      | PSyntax => PSyntax
                      | PUnmodelled => PUnmodelled
                      | PFuel => PFuel
                      end
                    else PSyntax
                end
            | PSyntax => PSyntax
            | PUnmodelled => PUnmodelled
            | PFuel => PFuel
            end
          else PSyntax
      end
  end.

(** [JSON.parse(text)]: one value between optional white space.  The parser
    spends at most two units of fuel per character, so the fuel given here
    never runs out ([parse_value_fuel] below). *)
Definition JSON_parse (text : string) : completion value :=
  match parse_value (2 * String.length text + 1) text with
  | POk v rest =>
      match skip_ws rest with
      | EmptyString => Normal v
      | String _ _ => Throw SyntaxError
      end
  | PSyntax => Throw SyntaxError
  | PUnmodelled => Unmodelled
  | PFuel => Unmodelled
  end.

End JS.

(* ===================================================================== *)
(** * The wizard component: src/components/MultiStepForm.tsx *)
(* ===================================================================== *)

Module MultiStepForm.
Import JS.

Inductive QuestionType : Type :=
| text
| radio
| select
| date
| file.

Record Conditional : Type := {
  field : string;
  value : list JS.value   (* values to match against the controller field *)
}.

Record Question : Type := {
  id : string;
  label : string;
  description : option string;
  type : QuestionType;
  options : option (list string);
  layout : option string;
  required : option bool;
  placeholder : option string;
  conditional : option Conditional
}.

Record Step : Type := {
  step_id : string;
  title : string;
  icon : string;
  step_description : string;
  questions : list Question
}.

Record FormConfig : Type := {
  form_title : string;
  steps : list Step
}.

Definition STORAGE_KEY : string := "healthAssessmentForm".
Definition STEP_KEY : string := "healthAssessmentStep".

(** The component's state hooks. *)
Record WizardState : Type := {
  stepIndex : number;
  formData : object JS.value;
  errors : object string;
  showUnsavedModal : bool;
  pendingStepIndex : option number
}.

(** What the component does to the outside, in order. *)
Inductive output : Type :=
| console_log (label : string) (data : object JS.value)
| alert (message : string)
| location_href (url : string).

(** The state hooks together with [localStorage] and what was emitted. *)
Record World : Type := {
  state : WizardState;
  localStorage : object string;
  outputs : list output
}.

Definition with_stepIndex (st : WizardState) (i : number) : WizardState :=
  {| stepIndex := i; formData := formData st; errors := errors st;
     showUnsavedModal := showUnsavedModal st; pendingStepIndex := pendingStepIndex st |}.

Definition with_formData (st : WizardState) (d : object JS.value) : WizardState :=
  {| stepIndex := stepIndex st; formData := d; errors := errors st;
     showUnsavedModal := showUnsavedModal st; pendingStepIndex := pendingStepIndex st |}.

Definition with_errors (st : WizardState) (e : object string) : WizardState :=
  {| stepIndex := stepIndex st; formData := formData st; errors := e;
     showUnsavedModal := showUnsavedModal st; pendingStepIndex := pendingStepIndex st |}.

Definition with_showUnsavedModal (st : WizardState) (b : bool) : WizardState :=
  {| stepIndex := stepIndex st; formData := formData st; errors := errors st;
     showUnsavedModal := b; pendingStepIndex := pendingStepIndex st |}.

Definition with_pendingStepIndex (st : WizardState) (p : option number) : WizardState :=
  {| stepIndex := stepIndex st; formData := formData st; errors := errors st;
     showUnsavedModal := showUnsavedModal st; pendingStepIndex := p |}.

(** [useState] initial values: [initialData ?? {}] and step 0. *)
Definition initialState (initialData : option (object JS.value)) : WizardState :=
  {| stepIndex := Int 0;
     formData := match initialData with Some d => d | None => [] end;
     errors := [];
     showUnsavedModal := false;
     pendingStepIndex := None |}.

(** [formConfig.steps[stepIndex]] *)
Definition currentStep (formConfig : FormConfig) (st : WizardState) : option Step :=
  at_index (steps formConfig) (stepIndex st).

(** ** Helpers *)

Definition normalizeValue (val : JS.value) : JS.value :=
  match val with
  | VStr s => VStr (trim s)
  | _ => val
  end.

Definition isEmptyValue (val : JS.value) : bool :=
  match val with
  | VUndefined | VNull => true
  | VStr s => String.eqb (trim s) ""
  | VArr items => Nat.eqb (List.length items) 0
  | _ => false   (* File/number/objects are considered present *)
  end.

Definition isVisible (q : Question) (formData : object JS.value) : bool :=
  match conditional q with
  | None => true
  | Some c =>
      let fieldVal := get formData (field c) in
      includes (map ToString (value c)) (ToString fieldVal)
  end.

(** [q.required] as a condition. *)
Definition is_required (q : Question) : bool :=
  match required q with
  | Some b => b
  | None => false
  end.

(** ** Persistence effects *)

(** [JSON.stringify(formData)] as [localStorage.setItem] stores it. *)
Definition serialize (formData : object JS.value) : string :=
  match JSON_stringify (VObj formData) with
  | Some t => t
  | None => "undefined"
  end.

Definition persistFormData (formData : object JS.value) (ls : object string) : object string :=
  set ls STORAGE_KEY (serialize formData).

Definition persistStepIndex (i : number) (ls : object string) : object string :=
  set ls STEP_KEY (Number_toString i).

(** The two write-through effects after a render that follows [w]: the one
    on [formData] runs when a new object was set, the one on [stepIndex] when
    the index is another number.  Effects run after a render that returns:
    the storage given here is the program's when the index of [st'] names a
    step; when it names none, [render] raises on [st'] and the program leaves
    the storage as it was. *)
Definition commit (w : World) (st' : WizardState) (newFormData : bool) : World :=
  let ls1 := if newFormData then persistFormData (formData st') (localStorage w)
             else localStorage w in
  let ls2 := if number_is (stepIndex (state w)) (stepIndex st') then ls1
             else persistStepIndex (stepIndex st') ls1 in
  {| state := st'; localStorage := ls2; outputs := outputs w |}.

Definition emit (w : World) (o : list output) : World :=
  {| state := state w; localStorage := localStorage w; outputs := (outputs w ++ o)%list |}.

Definition with_localStorage (w : World) (ls : object string) : World :=
  {| state := state w; localStorage := ls; outputs := outputs w |}.

(** ** Events *)

Definition handleChange (w : World) (id : string) (val : JS.value) : World :=
  let st := state w in
  let normalized := normalizeValue val in
  let st1 := with_formData st (set (formData st) id normalized) in
  let st2 := with_errors st1 (set (errors st) id "") in
  commit w st2 true.

Definition required_message : string := "This field is required.".

(** The condition under which [validateStep] records an error for [q]. *)
Definition unanswered (q : Question) (formData : object JS.value) : bool :=
  is_required q && isVisible q formData && isEmptyValue (get formData (id q)).

(** One turn of the loop of [validateStep]. *)
Definition recordError (formData : object JS.value) (acc : object string) (q : Question)
  : object string :=
  if unanswered q formData then set acc (id q) required_message else acc.

(** The [newErrors] object that [validateStep] builds over a step. *)
Definition newErrors (step : Step) (formData : object JS.value) : object string :=
  fold_left (recordError formData) (questions step) [].

Definition no_keys {A : Type} (o : object A) : bool := Nat.eqb (List.length (keys o)) 0.

(** [validateStep()]: the state with the recomputed errors, and whether there
    is none.  Reading [questions] off a missing step raises. *)
Definition validateStep (formConfig : FormConfig) (st : WizardState)
  : completion (WizardState * bool) :=
  match currentStep formConfig st with
  | None => Throw TypeError
  | Some step =>
      let e := newErrors step (formData st) in
      Normal (with_errors st e, no_keys e)
  end.

Definition nextStep (formConfig : FormConfig) (w : World) : completion World :=
  r <- validateStep formConfig (state w) ;;
  let '(st1, valid) := r in
  if valid
  then Normal (commit w (with_stepIndex st1 (number_add (stepIndex st1) 1)) false)
  else Normal (commit w st1 false).

Definition prevStep (w : World) : World :=
  commit w (with_stepIndex (state w) (number_add (stepIndex (state w)) (-1))) false.

Definition handleSubmit (formConfig : FormConfig) (w : World) : completion World :=
  r <- validateStep formConfig (state w) ;;
  let '(st1, valid) := r in
  if valid
  then
    let w1 := emit w [console_log "Final Data:" (formData (state w));
                      alert "Form submitted successfully!"] in
    let w2 := with_localStorage w1 (remove (remove (localStorage w1) STORAGE_KEY) STEP_KEY) in
    Normal (commit w2 st1 false)
  else Normal (commit w st1 false).

(** ** Enablement (only visible questions) *)

Definition visibleQuestions (step : Step) (formData : object JS.value) : list Question :=
  filter (fun q => isVisible q formData) (questions step).

Definition requiredVisibleQuestions (step : Step) (formData : object JS.value) : list Question :=
  filter is_required (visibleQuestions step formData).

Definition answeredRequiredVisible (step : Step) (formData : object JS.value) : list Question :=
  filter (fun q => negb (isEmptyValue (get formData (id q))))
         (requiredVisibleQuestions step formData).

Definition isNextEnabled (step : Step) (formData : object JS.value) : bool :=
  Nat.eqb (List.length (answeredRequiredVisible step formData))
          (List.length (requiredVisibleQuestions step formData)).

Definition isSaveEnabled (step : Step) (formData : object JS.value) : bool :=
  existsb (fun q => negb (isEmptyValue (get formData (id q))))
          (visibleQuestions step formData).

Definition handleSaveExit (formConfig : FormConfig) (w : World) : completion World :=
  match currentStep formConfig (state w) with
  | None => Throw TypeError
  | Some step =>
      let st := state w in
      let allVisibleAnswered :=
        forallb (fun q => negb (isEmptyValue (get (formData st) (id q))))
                (visibleQuestions step (formData st)) in
      if negb allVisibleAnswered
      then Normal (commit w (with_pendingStepIndex (with_showUnsavedModal st true) None) false)
      else Normal (emit w [console_log "Saved Data:" (formData st);
                           alert "Progress saved!";
                           location_href "/exit"])
  end.

(** The [onClick] that the navigation item of step [index] carries.  (The
    component hands its [ClayVerticalNav.Item] an empty handler beside it; the
    inline copy in App.tsx hands it this one.) *)
Definition navClick (formConfig : FormConfig) (w : World) (index : nat) : completion World :=
  r <- validateStep formConfig (state w) ;;
  let '(st1, isCurrentStepValid) := r in
  if negb isCurrentStepValid
  then Normal (commit w (with_showUnsavedModal
                           (with_pendingStepIndex st1 (Some (Int (Z.of_nat index)))) true) false)
  else Normal (commit w (with_stepIndex st1 (Int (Z.of_nat index))) false).

(** The close button of the confirmation dialog. *)
Definition closeModal (w : World) : World :=
  commit w (with_showUnsavedModal (state w) false) false.

(** What both proceed buttons do after their own first line. *)
Definition proceed (w : World) : World :=
  let st1 := with_showUnsavedModal (state w) false in
  match pendingStepIndex (state w) with
  | Some i => commit w (with_stepIndex st1 i) false
  | None => emit (commit w st1 false) [location_href "/exit"]   (* Save & Exit path *)
  end.

Definition proceedWithoutSaving (w : World) : World := proceed w.

Definition saveAndProceed (w : World) : World :=
  proceed (with_localStorage w (persistFormData (formData (state w)) (localStorage w))).

(** ** Render *)

(** What a render derives for the presentation; it raises when the step
    index names no step. *)
Record View : Type := {
  shown : list Question;
  nextEnabled : bool;
  saveEnabled : bool;
  backShown : bool;
  lastStep : bool;
  modalShown : bool
}.

Definition number_lt (a : number) (b : Z) : bool :=
  match a with
  | NaN => false
  | Int z => (z <? b)%Z
  end.

Definition number_gt (a : number) (b : Z) : bool :=
  match a with
  | NaN => false
  | Int z => (b <? z)%Z
  end.

Definition render (formConfig : FormConfig) (st : WizardState) : completion View :=
  match currentStep formConfig st with
  | None => Throw TypeError
  | Some step =>
      Normal {| shown := visibleQuestions step (formData st);
                nextEnabled := isNextEnabled step (formData st);
                saveEnabled := isSaveEnabled step (formData st);
                backShown := number_gt (stepIndex st) 0;
                lastStep := negb (number_lt (stepIndex st)
                                    (Z.of_nat (List.length (steps formConfig)) - 1));
                modalShown := showUnsavedModal st |}
  end.

(** ** Lifecycle: session start *)

Definition nonempty (s : string) : bool := negb (String.eqb s "").

(** [JSON.parse(savedData)] as the new [formData]. *)
Definition deserialize (savedData : string) : completion (object JS.value) :=
  v <- JSON_parse savedData ;;
  match v with
  | VObj o => Normal o
  | _ => Unmodelled
  end.

(** The mount effect that reads the persisted draft: the state it sets, and
    whether it set a new [formData]. *)
Definition loadPersisted (ls : object string) (st : WizardState)
  : completion (WizardState * bool) :=
  let savedData := lookup ls STORAGE_KEY in
  let savedStep := lookup ls STEP_KEY in
  r <- match savedData with
       | Some t =>
           if nonempty t
           then o <- deserialize t ;; Normal (with_formData st o, true)
           else Normal (st, false)
       | None => Normal (st, false)
       end ;;
  let '(st1, replaced) := r in
  match savedStep with
  | Some t => if nonempty t then Normal (with_stepIndex st1 (parseInt t), replaced)
              else Normal (st1, replaced)
  | None => Normal (st1, replaced)
  end.

(** Mounting the component over a given [localStorage]: the first render, the
    mount effects in their order (load, then the two write-throughs of the
    initial state), the render with the loaded state, and the write-throughs
    that its changes trigger. *)
Definition mount (formConfig : FormConfig) (initialData : option (object JS.value))
                 (ls : object string) : completion World :=
  let st0 := initialState initialData in
  _ <- render formConfig st0 ;;
  r <- loadPersisted ls st0 ;;
  let '(st1, replaced) := r in
  let ls1 := persistStepIndex (stepIndex st0) (persistFormData (formData st0) ls) in
  _ <- render formConfig st1 ;;
  Normal (commit {| state := st0; localStorage := ls1; outputs := [] |} st1 replaced).

(** ** The user's events, as the rendered controls offer them *)

Inductive event : Type :=
| Edit (id : string) (raw : JS.value)
| ClickNext
| ClickBack
| ClickSubmit
| ClickSaveExit
| ClickNav (index : nat)
| ClickClose
| ClickProceed
| ClickSaveAndProceed.

(** Whether the render of [st] offers the event: an input per visible
    question, Back after the first step, Next before the last step and Submit
    on it (both disabled with [isNextEnabled]), Save & Exit unless disabled,
    one navigation item per step, the dialog's buttons while it is open.
    [ClickNav] stands for a call of the [onClick] built for the item: the
    inline copy in App.tsx wires it to the item, the component hands the item
    an empty handler, so that for the component the events offered here are
    more than a user can raise. *)
Definition offered (formConfig : FormConfig) (st : WizardState) (ev : event) : bool :=
  match render formConfig st with
  | Normal v =>
      match ev with
      | Edit i _ => existsb (fun q => String.eqb (id q) i) (shown v)
      | ClickNext => negb (lastStep v) && nextEnabled v
      | ClickBack => backShown v
      | ClickSubmit => lastStep v && nextEnabled v
      | ClickSaveExit => saveEnabled v
      | ClickNav index => Nat.ltb index (List.length (steps formConfig))
      | ClickClose | ClickProceed | ClickSaveAndProceed => modalShown v
      end
  | _ => false
  end.

Definition handle (formConfig : FormConfig) (w : World) (ev : event) : completion World :=
  match ev with
  | Edit i raw => Normal (handleChange w i raw)
  | ClickNext => nextStep formConfig w
  | ClickBack => Normal (prevStep w)
  | ClickSubmit => handleSubmit formConfig w
  | ClickSaveExit => handleSaveExit formConfig w
  | ClickNav index => navClick formConfig w index
  | ClickClose => Normal (closeModal w)
  | ClickProceed => Normal (proceedWithoutSaving w)
  | ClickSaveAndProceed => Normal (saveAndProceed w)
  end.

End MultiStepForm.

(* ===================================================================== *)
(** * The inline copy of the wizard logic in src/App.tsx *)
(* ===================================================================== *)

Module AppInline.
Import JS MultiStepForm.

Definition handleChange (w : World) (id : string) (val : JS.value) : World :=
  let st := state w in
  let st1 := with_formData st (set (formData st) id val) in
  let st2 := with_errors st1 (set (errors st) id "") in
  commit w st2 true.

(** [value.includes(formData[field])], without coercion. *)
Definition isVisible (q : Question) (formData : object JS.value) : bool :=
  match conditional q with
  | None => true
  | Some c => existsb (same_value_zero (get formData (field c))) (value c)
  end.

Definition newErrors (step : Step) (formData : object JS.value) : object string :=
  fold_left
    (fun acc q =>
       if is_required q && isVisible q formData && negb (truthy (get formData (id q)))
       then set acc (id q) required_message
       else acc)
    (questions step) [].

Definition answeredQuestions (step : Step) (formData : object JS.value) : list Question :=
  filter
    (fun q =>
       match get formData (id q) with
       | VUndefined | VNull => false
       | VStr s => negb (String.eqb s "")
       | _ => true
       end)
    (questions step).

Definition isSaveEnabled (step : Step) (formData : object JS.value) : bool :=
  Nat.ltb 0 (List.length (answeredQuestions step formData)).

Definition isNextEnabled (step : Step) (formData : object JS.value) : bool :=
  Nat.eqb (List.length (answeredQuestions step formData)) (List.length (questions step)).

End AppInline.

(* ===================================================================== *)
(** * What the component renders: renderQuestion and the navigation items *)
(* ===================================================================== *)

Module Render.
Import JS MultiStepForm.

(** [formData[q.id] ?? ""], the value handed to the input of [q]. *)
Definition fieldValue (q : Question) (formData : object JS.value) : JS.value :=
  match get formData (id q) with
  | VUndefined | VNull => VStr ""
  | v => v
  end.

(** [value === opt] for an option string [opt]. *)
Definition strictly_equals (v : JS.value) (opt : string) : bool :=
  match v with
  | VStr s => String.eqb s opt
  | _ => false
  end.

(** The [checked] of the radio button of option [opt]. *)
Definition radioChecked (q : Question) (formData : object JS.value) (opt : string) : bool :=
  strictly_equals (fieldValue q formData) opt.

(** [errors[q.id]], and the message that [error && ...] puts under the
    input: none for a missing or empty entry. *)
Definition errorShown (q : Question) (errors : object string) : option string :=
  match lookup errors (id q) with
  | Some m => if nonempty m then Some m else None
  | None => None
  end.

(** One element of the [items] handed to the vertical navigation. *)
Record NavItem : Type := {
  item_id : string;
  item_label : string;
  active : bool;
  symbol : string;
  item_title : string
}.

(** [index === stepIndex] and [index < stepIndex] for an array index. *)
Definition index_is (index : nat) (stepIndex : number) : bool :=
  match stepIndex with
  | NaN => false
  | Int z => Z.eqb (Z.of_nat index) z
  end.

Definition index_before (index : nat) (stepIndex : number) : bool :=
  match stepIndex with
  | NaN => false
  | Int z => Z.ltb (Z.of_nat index) z
  end.

Definition navItem (stepIndex : number) (index : nat) (step : Step) : NavItem :=
  {| item_id := step_id step;
     item_label := title step;
     active := index_is index stepIndex;
     symbol := if index_before index stepIndex then "fa-solid fa-check" else icon step;
     item_title := step_description step |}.

(** [l.map((x, index) => f(index, x))], counting from [from]. *)
Fixpoint map_indexed {A B : Type} (f : nat -> A -> B) (from : nat) (l : list A) : list B :=
  match l with
  | [] => []
  | x :: r => f from x :: map_indexed f (S from) r
  end.

(** [formConfig.steps.map((step, index) => ({...}))] *)
Definition navItems (formConfig : FormConfig) (st : WizardState) : list NavItem :=
  map_indexed (navItem (stepIndex st)) 0 (steps formConfig).

End Render.

(* ===================================================================== *)
(** * The specification's vocabulary *)
(* ===================================================================== *)

Module Spec.
Import JS MultiStepForm.

(** [answers.get(k)]: the entry of the answer store under [k]; an absent
    entry reads as [undefined]. *)
Definition get (answers : object JS.value) (k : string) : JS.value :=
  match lookup answers k with
  | Some v => v
  | None => VUndefined
  end.

(** The white-space code units below 256. *)
Definition white_space : list nat := [9; 10; 11; 12; 13; 32; 160].

(** A string whose trimmed form is the empty string: it is white space
    throughout. *)
Definition blank (s : string) : Prop :=
  Forall (fun c => In (nat_of_ascii c) white_space) (list_ascii_of_string s).

(** Section 4.1 of the specification: a value is empty iff it is absent, or a
    string whose trimmed form is the empty string, or an empty sequence.  An
    absent answer reads as [undefined]; [null] counts as absent too. *)
Definition isEmpty (v : JS.value) : Prop :=
  v = VUndefined \/ v = VNull \/ (exists s, v = VStr s /\ blank s) \/ v = VArr [].



End Spec.

(* ===================================================================== *)
(** * A sample form *)
(* ===================================================================== *)

Module Sample.
Import JS MultiStepForm.

Definition question (i : string) (t : QuestionType) (opts : option (list string))
                    (req : bool) (cond : option Conditional) : Question :=
  {| id := i; label := i; description := None; type := t; options := opts;
     layout := None; required := Some req; placeholder := None; conditional := cond |}.

Definition when (f : string) (vs : list string) : option Conditional :=
  Some {| field := f; value := map VStr vs |}.

Definition hours : Question :=
  question "hours" select (Some ["0-2"; "3-5"; "6+"]) true None.

Definition detail : Question :=
  question "detail" text None false (when "hours" ["6+"]).

Definition smoker : Question :=
  question "smoker" radio (Some ["yes"; "no"]) true None.

Definition cigarettes : Question :=
  question "cigarettes" text None true (when "smoker" ["yes"]).

Definition name : Question := question "name" text None true None.

Definition upload : Question := question "upload" file None false None.

Definition lifestyle : Step :=
  {| step_id := "lifestyle"; title := "Lifestyle"; icon := "fa-heart";
     step_description := ""; questions := [hours; detail; smoker; cigarettes] |}.

Definition personal : Step :=
  {| step_id := "personal"; title := "About you"; icon := "fa-user";
     step_description := ""; questions := [name; upload] |}.

Definition formConfig : FormConfig :=
  {| form_title := "Health assessment"; steps := [lifestyle; personal] |}.


(** A form whose first step asks one required question under an id that
    names a member of [Object.prototype]. *)
Definition shadowed : Question := question "constructor" text None true None.

Definition opening : Step :=
  {| step_id := "opening"; title := "Opening"; icon := "fa-flag";
     step_description := ""; questions := [shadowed] |}.

Definition shadowedConfig : FormConfig :=
  {| form_title := "Health assessment"; steps := [opening; personal] |}.


(** A fresh session on empty storage. *)
Definition fresh : World :=
  {| state := initialState None; localStorage := []; outputs := [] |}.

(** The first step answered: few hours, a non-smoker. *)
Definition answered : object JS.value := [("hours", VStr "0-2"); ("smoker", VStr "no")].


(** On the second step, the first answered and the second untouched. *)
Definition onPersonal : World :=
  {| state := with_stepIndex (with_formData (initialState None) answered) (Int 1);
     localStorage := persistStepIndex (Int 1) (persistFormData answered []);
     outputs := [] |}.

(** Both steps answered, on the last step. *)
Definition complete : object JS.value :=
  [("hours", VStr "0-2"); ("smoker", VStr "no"); ("name", VStr "Ada")].

Definition completed : World :=
  {| state := with_stepIndex (with_formData (initialState None) complete) (Int 1);
     localStorage := persistStepIndex (Int 1) (persistFormData complete []);
     outputs := [] |}.


End Sample.

(* ===================================================================== *)
(** * Properties of wizard states *)
(* ===================================================================== *)

Module Props.
Import JS MultiStepForm.

(** [0 <= stepIndex < steps.length] *)
Definition valid_index (formConfig : FormConfig) (st : WizardState) : Prop :=
  exists z, stepIndex st = Int z /\
            (0 <= z < Z.of_nat (List.length (steps formConfig)))%Z.

Definition valid_pending (formConfig : FormConfig) (st : WizardState) : Prop :=
  forall p, pendingStepIndex st = Some p ->
  exists z, p = Int z /\ (0 <= z < Z.of_nat (List.length (steps formConfig)))%Z.

(** The worlds a session passes through: what mounting yields, and what the
    events offered by each render lead to. *)
Inductive reachable (formConfig : FormConfig) : World -> Prop :=
| reach_mount initialData ls w :
    mount formConfig initialData ls = Normal w ->
    reachable formConfig w
| reach_event w ev w' :
    reachable formConfig w ->
    offered formConfig (state w) ev = true ->
    handle formConfig w ev = Normal w' ->
    reachable formConfig w'.






(** A parse that succeeds consumes some of its text. *)
Definition shrinks {A : Type} (p : presult A) (s : string) : Prop :=
  forall a r, p = POk a r -> String.length r < String.length s.



(** Every key of the errors is the id of a question of the step. *)
Definition errors_within (e : object string) (step : Step) : Prop :=
  forall k, lookup e k <> None -> In k (map id (questions step)).

End Props.

(* ===================================================================== *)
(** * The persisted draft *)
(* ===================================================================== *)

Module Draft.
Import JS MultiStepForm.


(** Neither key is in the storage. *)
Definition cleared (w : World) : Prop :=
  lookup (localStorage w) STORAGE_KEY = None /\
  lookup (localStorage w) STEP_KEY = None.

(** An answer as the component's [handleChange] stores what an input hands
    it: a trimmed string, a file, or [undefined]. *)
Definition entered (v : JS.value) : Prop :=
  v = VUndefined \/ (exists s, v = VStr s /\ trim s = s) \/ (exists n, v = VFile n).

(** What an input hands to [handleChange]: the string of a text, select,
    radio or date input, or the chosen file, [undefined] when none is. *)
Definition from_input (v : JS.value) : Prop :=
  v = VUndefined \/ (exists s, v = VStr s) \/ (exists n, v = VFile n).

(** A number that the model renders exactly. *)
Definition exact (n : number) : Prop :=
  match n with
  | NaN => True
  | Int z => (Z.abs z <= 9007199254740992)%Z
  end.

End Draft.

(* ===================================================================== *)
(** * Facts about plain objects *)
(* ===================================================================== *)

Import JS MultiStepForm Props.

(** Linear arithmetic over the lengths of strings, taken as unknowns. *)
Ltac lengths :=
  repeat match goal with
         | |- context [String.length ?x] =>
             let n := fresh "n" in set (n := String.length x) in *; clearbody n
         | H : context [String.length ?x] |- _ =>
             let n := fresh "n" in set (n := String.length x) in *; clearbody n
         end;
  lia.

(** A result that is neither out of fuel nor a success. *)
Ltac dead := split; [discriminate | intros; discriminate].

(** Distinctness of a literal list of keys. *)
Ltac distinct_ids :=
  repeat (apply NoDup_cons; [simpl; intuition discriminate|]); apply NoDup_nil.

Section ObjectFacts.
Context {A : Type}.
Implicit Types (o : object A) (k : string) (v : A).

Lemma has_own_lookup o k : has_own o k = true <-> lookup o k <> None.
Proof.
  unfold has_own. destruct (lookup o k); split; congruence.
Qed.

Lemma has_own_false o k : has_own o k = false <-> lookup o k = None.
Proof.
  unfold has_own. destruct (lookup o k); split; congruence.
Qed.

Lemma lookup_keys o k : lookup o k <> None <-> In k (keys o).
Proof.
  induction o as [|[k' v'] r IH]; simpl.
  - split; [congruence | tauto].
  - destruct (String.eqb_spec k k') as [->|Hne].
    + split; [auto | congruence].
    + rewrite IH. split; [auto | intros [H|H]; [congruence | exact H]].
Qed.

Lemma lookup_app_none o1 o2 k :
  lookup o1 k = None -> lookup (o1 ++ o2)%list k = lookup o2 k.
Proof.
  induction o1 as [|[k' v'] r IH]; simpl; [reflexivity|].
  destruct (String.eqb k k'); [congruence | exact IH].
Qed.

Lemma lookup_app_some o1 o2 k v :
  lookup o1 k = Some v -> lookup (o1 ++ o2)%list k = Some v.
Proof.
  induction o1 as [|[k' v'] r IH]; simpl; [congruence|].
  destruct (String.eqb k k'); [congruence | exact IH].
Qed.

Lemma lookup_replace o k v k' :
  lookup (replace o k v) k' =
  if String.eqb k' k then (if has_own o k then Some v else None) else lookup o k'.
Proof.
  induction o as [|[k0 v0] r IH]; simpl.
  - destruct (String.eqb k' k); reflexivity.
  - unfold has_own in *. simpl.
    destruct (String.eqb_spec k k0) as [->|Hne]; simpl.
    + destruct (String.eqb_spec k' k0); reflexivity.
    + destruct (String.eqb_spec k' k0) as [->|Hne'].
      * destruct (String.eqb_spec k0 k); [congruence | reflexivity].
      * exact IH.
Qed.

Lemma lookup_insert_index o i k v k' :
  lookup o k = None ->
  lookup (insert_index o i k v) k' = if String.eqb k' k then Some v else lookup o k'.
Proof.
  induction o as [|[k0 v0] r IH]; simpl; intros Hk.
  - reflexivity.
  - destruct (String.eqb_spec k k0) as [->|Hne]; [congruence|].
    destruct (array_index k0) as [j|]; [destruct (j <? i)%Z|]; simpl; try reflexivity.
    destruct (String.eqb_spec k' k0) as [->|Hne'].
    + destruct (String.eqb_spec k0 k); [congruence | reflexivity].
    + apply IH, Hk.
Qed.

(** Writing a property and reading one back. *)
Lemma lookup_set o k v k' :
  lookup (set o k v) k' = if String.eqb k' k then Some v else lookup o k'.
Proof.
  unfold set. destruct (has_own o k) eqn:Hown.
  - rewrite lookup_replace, Hown. reflexivity.
  - apply has_own_false in Hown.
    destruct (array_index k) as [i|].
    + apply lookup_insert_index, Hown.
    + destruct (String.eqb_spec k' k) as [->|Hne].
      * rewrite lookup_app_none by exact Hown. simpl. now rewrite String.eqb_refl.
      * destruct (lookup o k') eqn:E.
        -- now apply lookup_app_some.
        -- rewrite lookup_app_none by exact E. simpl.
           destruct (String.eqb_spec k' k); [congruence | reflexivity].
Qed.

Lemma lookup_set_same o k v : lookup (set o k v) k = Some v.
Proof. rewrite lookup_set, String.eqb_refl. reflexivity. Qed.

Lemma lookup_set_other o k v k' : k' <> k -> lookup (set o k v) k' = lookup o k'.
Proof.
  intros Hne. rewrite lookup_set.
  destruct (String.eqb_spec k' k); [congruence | reflexivity].
Qed.

Lemma length_replace o k v : List.length (replace o k v) = List.length o.
Proof.
  induction o as [|[k0 v0] r IH]; simpl; [reflexivity|].
  destruct (String.eqb k k0); simpl; congruence.
Qed.

Lemma length_insert_index o i k v : List.length (insert_index o i k v) = S (List.length o).
Proof.
  induction o as [|[k0 v0] r IH]; simpl; [reflexivity|].
  destruct (array_index k0) as [j|]; [destruct (j <? i)%Z|]; simpl; congruence.
Qed.

(** A write adds a property exactly when the key is new. *)
Lemma length_set o k v :
  List.length (set o k v) = if has_own o k then List.length o else S (List.length o).
Proof.
  unfold set. destruct (has_own o k).
  - apply length_replace.
  - destruct (array_index k).
    + apply length_insert_index.
    + rewrite length_app. simpl. lia.
Qed.

Lemma lookup_remove o k k' :
  lookup (remove o k) k' = if String.eqb k' k then None else lookup o k'.
Proof.
  unfold remove. induction o as [|[k0 v0] r IH]; simpl.
  - destruct (String.eqb k' k); reflexivity.
  - destruct (String.eqb_spec k k0) as [->|Hne]; simpl.
    + rewrite IH. destruct (String.eqb_spec k' k0); reflexivity.
    + destruct (String.eqb_spec k' k0) as [->|Hne'].
      * destruct (String.eqb_spec k0 k); [congruence | reflexivity].
      * exact IH.
Qed.

End ObjectFacts.

Lemma inherited_false (k : string) : inherited k = false <-> Object_prototype k = None.
Proof. unfold inherited. destruct (Object_prototype k); split; congruence. Qed.

Lemma get_absent (o : object JS.value) k :
  lookup o k = None -> inherited k = false -> get o k = VUndefined.
Proof. unfold get. intros -> H. apply inherited_false in H. now rewrite H. Qed.

(** A read of the code is the read of the answer store as soon as the key is
    an own property or names nothing inherited. *)
Lemma get_Spec_get (o : object JS.value) k :
  lookup o k <> None \/ inherited k = false -> get o k = Spec.get o k.
Proof.
  unfold get, Spec.get. intros H. destruct (lookup o k) as [v|]; [reflexivity|].
  destruct H as [H|H]; [congruence|]. apply inherited_false in H. now rewrite H.
Qed.

(** The reads of the code depend on the own properties only. *)
Lemma get_ext (o o' : object JS.value) k : lookup o k = lookup o' k -> get o k = get o' k.
Proof. unfold get. now intros ->. Qed.

Lemma includes_In l x : includes l x = true <-> In x l.
Proof.
  unfold includes. rewrite existsb_exists. split.
  - intros (y & Hy & E). apply String.eqb_eq in E. now subst.
  - intros H. exists x. split; [exact H | apply String.eqb_refl].
Qed.

(* ===================================================================== *)
(** * Visibility *)
(* ===================================================================== *)

Lemma isVisible_conditional (q : Question) (c : Conditional) (formData : object JS.value) :
  conditional q = Some c ->
  (isVisible q formData = true <->
   In (ToString (get formData (field c))) (map ToString (value c))).
Proof.
  intros Hc. unfold isVisible. rewrite Hc. apply includes_In.
Qed.





(** The specification's example: with [value = ["yes"]], the answer "yes"
    shows the question and the answer "Yes" does not. *)
Example isVisible_case_sensitive :
  isVisible Sample.cigarettes [("smoker", VStr "yes")] = true /\
  isVisible Sample.cigarettes [("smoker", VStr "Yes")] = false.
Proof. split; reflexivity. Qed.

(** The coercion at work: a stored number matches its numeral, which the
    inline copy in App.tsx, comparing without coercion, does not accept. *)
Example isVisible_coerces_numbers :
  let q := Sample.question "q" text None false (Sample.when "age" ["42"]) in
  isVisible q [("age", VNum (Int 42))] = true /\
  AppInline.isVisible q [("age", VNum (Int 42))] = false.
Proof. split; reflexivity. Qed.

Lemma In_map_ToString_strings (vs : list JS.value) (s : string) :
  (forall v, In v vs -> exists t, v = VStr t) ->
  In s (map ToString vs) <-> In (VStr s) vs.
Proof.
  intros Hstr. rewrite in_map_iff. split.
  - intros (v & Hv & Hin). destruct (Hstr v Hin) as (t & ->). simpl in Hv. now subst.
  - intros Hin. exists (VStr s). split; [reflexivity | exact Hin].
Qed.

(** C10. When the controller field has no entry in the answer store and
    names no member of [Object.prototype], the question is visible exactly
    when some element of the conditional's value list coerces to "undefined":
    for a list of strings, when it contains the string "undefined"; a list of
    ordinary option strings hides the question. *)
Theorem isVisible_unanswered_controller
  (q : Question) (c : Conditional) (formData : object JS.value) :
  conditional q = Some c ->
  lookup formData (field c) = None ->
  inherited (field c) = false ->
  (isVisible q formData = true <-> In "undefined" (map ToString (value c))) /\
  ((forall v, In v (value c) -> exists t, v = VStr t) ->
   (isVisible q formData = true <-> In (VStr "undefined") (value c))) /\
  ((forall v, In v (value c) -> exists t, v = VStr t /\ t <> "undefined") ->
   isVisible q formData = false).
Proof.
  intros Hc Habs Hinh.
  assert (Hvis : isVisible q formData = true <-> In "undefined" (map ToString (value c))).
  { rewrite (isVisible_conditional q c formData Hc).
    now rewrite (get_absent _ _ Habs Hinh). }
  split; [exact Hvis|]. split.
  - intros Hstr. rewrite Hvis. now apply In_map_ToString_strings.
  - intros Hord.
    destruct (isVisible q formData) eqn:E; [|reflexivity].
    exfalso. destruct Hvis as [Hvis _]. specialize (Hvis eq_refl).
    apply In_map_ToString_strings in Hvis.
    + destruct (Hord _ Hvis) as (t & Ht & Hne). inversion Ht. congruence.
    + intros v Hv. destruct (Hord v Hv) as (t & -> & _). now exists t.
Qed.

Lemma isVisible_unanswered_controller_witness :
  isVisible Sample.detail [] = false /\
  isVisible (Sample.question "q" text None false (Sample.when "hours" ["undefined"])) [] = true.
Proof.
  split.
  - refine (proj2 (proj2 (isVisible_unanswered_controller Sample.detail
              {| field := "hours"; value := [VStr "6+"] |} [] eq_refl eq_refl eq_refl)) _).
    intros v [<-|[]]. exists "6+". split; [reflexivity | discriminate].
  - refine (proj2 (proj1 (isVisible_unanswered_controller
              (Sample.question "q" text None false (Sample.when "hours" ["undefined"]))
              {| field := "hours"; value := [VStr "undefined"] |} [] eq_refl eq_refl
              eq_refl)) _).
    simpl. left. reflexivity.
Defined.

(** An unanswered controller under the id [toString] reads as the inherited
    method: a value list that spells the method out shows the question
    although it does not contain "undefined", and the list ["undefined"]
    hides it. *)
Lemma unanswered_controller_reads_prototype :
  lookup (@nil (string * JS.value)) "toString" = None /\
  isVisible (Sample.question "q" text None false
               (Sample.when "toString" ["function toString() { [native code] }"])) [] = true /\
  ~ In (VStr "undefined") [VStr "function toString() { [native code] }"] /\
  isVisible (Sample.question "q" text None false (Sample.when "toString" ["undefined"])) []
    = false /\
  In (VStr "undefined") [VStr "undefined"].
Proof.
  split; [reflexivity|]. split; [reflexivity|].
  split; [intros [H|[]]; discriminate|]. split; [reflexivity | now left].
Qed.

(* ===================================================================== *)
(** * Validation and gating *)
(* ===================================================================== *)

Lemma trimEnd_nil_iff (s : string) :
  trimEnd s = "" <-> forallb is_ws (list_ascii_of_string s) = true.
Proof.
  induction s as [|c r IH]; simpl.
  - tauto.
  - destruct (trimEnd r) eqn:E.
    + destruct (is_ws c); simpl.
      * tauto.
      * split; discriminate.
    + split; [discriminate|].
      intros H. apply andb_true_iff in H. destruct H as [_ H].
      apply IH in H. discriminate.
Qed.

(** A string trims to nothing exactly when it is white space throughout. *)
Lemma trim_nil_iff (s : string) :
  trim s = "" <-> forallb is_ws (list_ascii_of_string s) = true.
Proof.
  unfold trim. rewrite trimEnd_nil_iff.
  induction s as [|c r IH]; simpl; [tauto|].
  destruct (is_ws c) eqn:W; simpl.
  - exact IH.
  - rewrite W. simpl. tauto.
Qed.

Lemma is_ws_spec (c : ascii) : is_ws c = true <-> In (nat_of_ascii c) Spec.white_space.
Proof.
  unfold is_ws, code_is, code, Spec.white_space. rewrite !orb_true_iff, !Nat.eqb_eq.
  simpl. intuition congruence.
Qed.

(** A string trims to nothing exactly when it is blank. *)
Lemma trim_blank (s : string) : trim s = "" <-> Spec.blank s.
Proof.
  rewrite trim_nil_iff, forallb_forall. unfold Spec.blank. rewrite Forall_forall.
  split; intros H c Hc; apply is_ws_spec, H, Hc.
Qed.

(** The component's emptiness test is the specification's. *)
Lemma isEmptyValue_spec (v : JS.value) : isEmptyValue v = true <-> Spec.isEmpty v.
Proof.
  unfold Spec.isEmpty. destruct v as [| |b|n|s|items|props|n|n]; simpl;
    try tauto;
    try (split; [discriminate | intros [H|[H|[(s' & H & _)|H]]]; discriminate]).
  - rewrite String.eqb_eq, trim_blank. split.
    + intros H. right. right. left. now exists s.
    + intros [H|[H|[(t & H & Ht)|H]]]; try discriminate. now inversion H.
  - destruct items; simpl.
    + tauto.
    + split; [discriminate | intros [H|[H|[(s & H & _)|H]]]; discriminate].
Qed.

Lemma unanswered_spec (q : Question) (formData : object JS.value) :
  unanswered q formData = true <->
  is_required q = true /\ isVisible q formData = true /\
  Spec.isEmpty (get formData (id q)).
Proof.
  unfold unanswered. rewrite !andb_true_iff, isEmptyValue_spec. tauto.
Qed.

(** For a question whose id names nothing inherited, the test of the loop is
    the specification's rule over the entry of the answer store. *)
Lemma unanswered_entry (q : Question) (formData : object JS.value) :
  inherited (id q) = false ->
  (unanswered q formData = true <->
   is_required q = true /\ isVisible q formData = true /\
   Spec.isEmpty (Spec.get formData (id q))).
Proof.
  intros H. rewrite unanswered_spec, get_Spec_get by now right. tauto.
Qed.

Section NewErrors.
Variable formData : object JS.value.

(** What the loop of [validateStep] leaves under a key. *)
Lemma lookup_fold_record (qs : list Question) (acc : object string) (k : string) :
  lookup (fold_left (recordError formData) qs acc) k =
  if existsb (fun q => String.eqb k (id q) && unanswered q formData) qs
  then Some required_message
  else lookup acc k.
Proof.
  revert acc. induction qs as [|q qs IH]; intros acc; simpl; [reflexivity|].
  rewrite IH. unfold recordError.
  destruct (existsb _ qs); [now rewrite orb_true_r|].
  rewrite orb_false_r.
  destruct (unanswered q formData).
  - rewrite lookup_set, andb_true_r. reflexivity.
  - rewrite andb_false_r. reflexivity.
Qed.

(** With distinct ids, every unanswered question adds one property. *)
Lemma length_fold_record (qs : list Question) (acc : object string) :
  NoDup (map id qs) ->
  (forall q, In q qs -> lookup acc (id q) = None) ->
  List.length (fold_left (recordError formData) qs acc) =
  List.length acc + List.length (filter (fun q => unanswered q formData) qs).
Proof.
  revert acc. induction qs as [|q qs IH]; intros acc Hnd Hfresh; simpl; [lia|].
  inversion Hnd as [|? ? Hnotin Hnd']; subst.
  rewrite IH; [|exact Hnd'|].
  - unfold recordError. destruct (unanswered q formData); simpl; [|lia].
    rewrite length_set.
    replace (has_own acc (id q)) with false; [lia|].
    symmetry. apply has_own_false, Hfresh. now left.
  - intros q' Hq'. unfold recordError. destruct (unanswered q formData).
    + rewrite lookup_set_other; [apply Hfresh; now right|].
      intros E. apply Hnotin. rewrite <- E. now apply in_map.
    + apply Hfresh. now right.
Qed.

End NewErrors.

Lemma existsb_id_unanswered (qs : list Question) (formData : object JS.value) (q : Question) :
  NoDup (map id qs) -> In q qs ->
  existsb (fun q' => String.eqb (id q) (id q') && unanswered q' formData) qs =
  unanswered q formData.
Proof.
  induction qs as [|q0 qs IH]; intros Hnd Hin; [destruct Hin|].
  inversion Hnd as [|? ? Hnotin Hnd']; subst. simpl.
  destruct Hin as [->|Hin].
  - rewrite String.eqb_refl. simpl.
    destruct (unanswered q formData); [reflexivity|]. simpl.
    apply not_true_is_false. intros H. apply existsb_exists in H.
    destruct H as (q' & Hq' & H). apply andb_true_iff in H. destruct H as [H _].
    apply String.eqb_eq in H. apply Hnotin. rewrite H. now apply in_map.
  - destruct (String.eqb_spec (id q) (id q0)) as [E|_]; simpl.
    + exfalso. apply Hnotin. rewrite <- E. now apply in_map.
    + now apply IH.
Qed.

Lemma lookup_newErrors (step : Step) (formData : object JS.value) (k : string) :
  lookup (newErrors step formData) k =
  if existsb (fun q => String.eqb k (id q) && unanswered q formData) (questions step)
  then Some required_message else None.
Proof. unfold newErrors. now rewrite lookup_fold_record. Qed.

Lemma no_keys_iff {A : Type} (o : object A) : no_keys o = true <-> o = [].
Proof.
  unfold no_keys, keys. destruct o; simpl; split; congruence.
Qed.

Lemma newErrors_nil_iff (step : Step) (formData : object JS.value) :
  newErrors step formData = [] <->
  forall q, In q (questions step) -> unanswered q formData = false.
Proof.
  split.
  - intros E q Hq. destruct (unanswered q formData) eqn:U; [|reflexivity].
    pose proof (lookup_newErrors step formData (id q)) as H.
    rewrite E in H. simpl in H.
    replace (existsb _ _) with true in H; [discriminate|].
    symmetry. apply existsb_exists. exists q. now rewrite String.eqb_refl, U.
  - intros H. unfold newErrors.
    assert (G : forall acc, fold_left (recordError formData) (questions step) acc = acc).
    { induction (questions step) as [|q qs IH]; intros acc; simpl; [reflexivity|].
      unfold recordError at 2. rewrite (H q) by now left.
      apply IH. intros q' Hq'. apply H. now right. }
    apply G.
Qed.

Lemma number_is_refl (n : number) : number_is n n = true.
Proof. destruct n; simpl; [reflexivity | apply Z.eqb_refl]. Qed.

(** C2. Over a step with distinct question ids, none of which names a member
    of [Object.prototype], [validateStep] recomputes the errors so that a
    question of the step has an entry exactly when it is required, visible
    and its entry in the answer store is empty (absent, a string that is
    blank, or an empty sequence); every entry belongs to a question of the
    step and carries the required-field message; a question that is not
    visible has no entry, whatever its [required] flag; and the result is
    [true] exactly when there is no entry. *)
Theorem validateStep_spec (formConfig : FormConfig) (st : WizardState) (step : Step) :
  currentStep formConfig st = Some step ->
  NoDup (map id (questions step)) ->
  (forall q, In q (questions step) -> inherited (id q) = false) ->
  exists e ok,
    validateStep formConfig st = Normal (with_errors st e, ok) /\
    (forall q, In q (questions step) ->
       (lookup e (id q) <> None <->
        is_required q = true /\ isVisible q (formData st) = true /\
        Spec.isEmpty (Spec.get (formData st) (id q)))) /\
    (forall k m, lookup e k = Some m ->
       m = required_message /\ exists q, In q (questions step) /\ id q = k) /\
    (forall q, In q (questions step) -> isVisible q (formData st) = false ->
       lookup e (id q) = None) /\
    (ok = true <-> forall k, lookup e k = None).
Proof.
  intros Hstep Hnd Hids. unfold validateStep. rewrite Hstep.
  exists (newErrors step (formData st)), (no_keys (newErrors step (formData st))).
  split; [reflexivity|].
  assert (Hq : forall q, In q (questions step) ->
            lookup (newErrors step (formData st)) (id q) =
            if unanswered q (formData st) then Some required_message else None).
  { intros q Hin. rewrite lookup_newErrors, existsb_id_unanswered by assumption.
    reflexivity. }
  split; [|split; [|split; [|split]]].
  - intros q Hin. rewrite (Hq q Hin), <- (unanswered_entry q _ (Hids q Hin)).
    destruct (unanswered q (formData st)) eqn:U; split; congruence.
  - intros k m H. rewrite lookup_newErrors in H.
    destruct (existsb _ _) eqn:E; [|discriminate].
    split; [congruence|].
    apply existsb_exists in E. destruct E as (q & Hin & E).
    apply andb_true_iff in E. destruct E as [E _]. apply String.eqb_eq in E.
    exists q. now split.
  - intros q Hin Hvis. rewrite (Hq q Hin). unfold unanswered.
    now rewrite Hvis, andb_false_r.
  - intros H k. apply no_keys_iff in H. now rewrite H.
  - intros H. apply no_keys_iff.
    destruct (newErrors step (formData st)) as [|[k m] r]; [reflexivity|].
    specialize (H k). simpl in H. rewrite String.eqb_refl in H. discriminate.
Qed.

Lemma validateStep_spec_witness :
  exists e ok,
    validateStep Sample.formConfig (initialState None)
      = Normal (with_errors (initialState None) e, ok) /\
    (forall q, In q (questions Sample.lifestyle) ->
       (lookup e (id q) <> None <->
        is_required q = true /\ isVisible q [] = true /\
        Spec.isEmpty (Spec.get [] (id q)))) /\
    (forall k m, lookup e k = Some m ->
       m = required_message /\ exists q, In q (questions Sample.lifestyle) /\ id q = k) /\
    (forall q, In q (questions Sample.lifestyle) -> isVisible q [] = false ->
       lookup e (id q) = None) /\
    (ok = true <-> forall k, lookup e k = None).
Proof.
  apply (validateStep_spec Sample.formConfig (initialState None) Sample.lifestyle eq_refl).
  - distinct_ids.
  - intros q [<-|[<-|[<-|[<-|[]]]]]; reflexivity.
Defined.

(** A required, visible question under the id [constructor] with no entry in
    the answer store gets no error entry: the read yields the inherited
    constructor, which is not empty, and the validation passes. *)
Lemma validateStep_reads_prototype :
  In Sample.shadowed (questions Sample.opening) /\
  is_required Sample.shadowed = true /\
  isVisible Sample.shadowed [] = true /\
  Spec.isEmpty (Spec.get [] (id Sample.shadowed)) /\
  validateStep Sample.shadowedConfig (initialState None)
    = Normal (with_errors (initialState None) [], true).
Proof.
  split; [now left|]. split; [reflexivity|]. split; [reflexivity|].
  split; [now left | reflexivity].
Qed.

(** Emptiness at work: white space only is empty, a file and a number are
    present. *)
Example isEmptyValue_cases :
  isEmptyValue (VStr (String " " (String (chr 13) ""))) = true /\
  isEmptyValue (VArr []) = true /\
  isEmptyValue (VFile "scan.pdf") = false /\
  isEmptyValue (VNum (Int 0)) = false.
Proof. repeat split. Qed.

(** The inline copy in App.tsx tests falsiness instead: white space only
    passes its validation, the number 0 does not. *)
Example AppInline_newErrors_differs :
  newErrors Sample.personal [("name", VStr " ")] = [("name", required_message)] /\
  AppInline.newErrors Sample.personal [("name", VStr " ")] = [] /\
  newErrors Sample.personal [("name", VNum (Int 0))] = [] /\
  AppInline.newErrors Sample.personal [("name", VNum (Int 0))] = [("name", required_message)].
Proof. repeat split. Qed.

(** On the sample's first step with nothing answered, the two visible required
    questions get an entry and the hidden required one does not. *)
Example newErrors_fresh :
  newErrors Sample.lifestyle [] =
  [("hours", required_message); ("smoker", required_message)].
Proof. reflexivity. Qed.

Lemma length_filter_all {A : Type} (p : A -> bool) (l : list A) :
  Nat.eqb (List.length (filter p l)) (List.length l) = forallb p l.
Proof.
  induction l as [|x l IH]; simpl; [reflexivity|].
  destruct (p x); simpl; [exact IH|].
  pose proof (filter_length_le p l) as Hle.
  apply Nat.eqb_neq. lia.
Qed.

(** The gate as one test over the questions of the step. *)
Lemma isNextEnabled_forallb (step : Step) (formData : object JS.value) :
  isNextEnabled step formData =
  forallb (fun q => negb (unanswered q formData)) (questions step).
Proof.
  unfold isNextEnabled, answeredRequiredVisible, requiredVisibleQuestions, visibleQuestions.
  rewrite length_filter_all.
  induction (questions step) as [|q qs IH]; simpl; [reflexivity|].
  unfold unanswered at 1.
  destruct (isVisible q formData); simpl.
  - destruct (is_required q); simpl; [now rewrite IH | exact IH].
  - rewrite andb_false_r. simpl. exact IH.
Qed.

(** C3. Over a step none of whose question ids names a member of
    [Object.prototype], the Next gate is open exactly when every question of
    the step that is required and visible has a non-empty entry in the answer
    store; on every step, a question that is optional or hidden does not
    affect it: the gate of the step is the gate of the step without that
    question. *)
Theorem isNextEnabled_spec (step : Step) (formData : object JS.value) :
  ((forall q, In q (questions step) -> inherited (id q) = false) ->
   (isNextEnabled step formData = true <->
    forall q, In q (questions step) ->
      is_required q = true -> isVisible q formData = true ->
      ~ Spec.isEmpty (Spec.get formData (id q)))) /\
  (forall step' q l1 l2,
     questions step = (l1 ++ q :: l2)%list ->
     questions step' = (l1 ++ l2)%list ->
     is_required q = false \/ isVisible q formData = false ->
     isNextEnabled step formData = isNextEnabled step' formData).
Proof.
  split.
  - intros Hids. rewrite isNextEnabled_forallb, forallb_forall. split.
    + intros H q Hin Hr Hv He. specialize (H q Hin).
      rewrite (proj2 (unanswered_entry q formData (Hids q Hin))) in H by tauto.
      discriminate.
    + intros H q Hin. destruct (unanswered q formData) eqn:U; [|reflexivity].
      apply (unanswered_entry q formData (Hids q Hin)) in U.
      destruct U as (Hr & Hv & He).
      exfalso. exact (H q Hin Hr Hv He).
  - intros step' q l1 l2 E E' Hq.
    rewrite !isNextEnabled_forallb, E, E', !forallb_app. simpl.
    replace (unanswered q formData) with false; [reflexivity|].
    unfold unanswered. destruct Hq as [-> | ->]; [reflexivity|].
    now rewrite andb_false_r.
Qed.

(** With the one required, visible question of the step under the id
    [constructor] and nothing answered, the gate is open. *)
Lemma isNextEnabled_reads_prototype :
  isNextEnabled Sample.opening [] = true /\
  ~ (forall q, In q (questions Sample.opening) ->
       is_required q = true -> isVisible q [] = true ->
       ~ Spec.isEmpty (Spec.get [] (id q))).
Proof.
  split; [reflexivity|].
  intros H. apply (H Sample.shadowed); [now left | reflexivity | reflexivity | now left].
Qed.

(** The specification's scenario: [hours] required, [detail] shown for "6+". *)
Example isNextEnabled_scenario :
  let step := {| step_id := "s"; title := "s"; icon := ""; step_description := "";
                 questions := [Sample.hours; Sample.detail] |} in
  isVisible Sample.detail [("hours", VStr "6+")] = true /\
  isNextEnabled step [] = false /\
  isVisible Sample.detail [("hours", VStr "0-2")] = false /\
  isNextEnabled step [("hours", VStr "0-2")] = true.
Proof. repeat split. Qed.

(** The inline copy in App.tsx gates on every question of the step instead:
    an unanswered optional question keeps its Next closed. *)
Example AppInline_isNextEnabled_differs :
  isNextEnabled Sample.personal [("name", VStr "Ada")] = true /\
  AppInline.isNextEnabled Sample.personal [("name", VStr "Ada")] = false.
Proof. split; reflexivity. Qed.

(** C6. When the current step (with distinct question ids, none naming a
    member of [Object.prototype]) has a required visible question whose entry
    in the answer store is empty, [nextStep] changes nothing but the errors:
    the step index, the answers, the dialog state, the storage and the
    outputs stay, and the errors hold exactly one entry, with the
    required-field message, per such question. *)
Theorem nextStep_blocked (formConfig : FormConfig) (w : World) (step : Step) :
  currentStep formConfig (state w) = Some step ->
  NoDup (map id (questions step)) ->
  (forall q, In q (questions step) -> inherited (id q) = false) ->
  (exists q, In q (questions step) /\
     is_required q = true /\ isVisible q (formData (state w)) = true /\
     Spec.isEmpty (Spec.get (formData (state w)) (id q))) ->
  exists w',
    nextStep formConfig w = Normal w' /\
    stepIndex (state w') = stepIndex (state w) /\
    formData (state w') = formData (state w) /\
    showUnsavedModal (state w') = showUnsavedModal (state w) /\
    pendingStepIndex (state w') = pendingStepIndex (state w) /\
    localStorage w' = localStorage w /\
    outputs w' = outputs w /\
    List.length (keys (errors (state w'))) =
      List.length (filter (fun q => unanswered q (formData (state w))) (questions step)) /\
    (forall q, In q (questions step) ->
       (lookup (errors (state w')) (id q) = Some required_message <->
        is_required q = true /\ isVisible q (formData (state w)) = true /\
        Spec.isEmpty (Spec.get (formData (state w)) (id q)))) /\
    (forall k, lookup (errors (state w')) k <> None ->
       exists q, In q (questions step) /\ id q = k /\
         is_required q = true /\ isVisible q (formData (state w)) = true /\
         Spec.isEmpty (Spec.get (formData (state w)) (id q))).
Proof.
  intros Hstep Hnd Hids (q0 & Hin0 & Hblock).
  apply (unanswered_entry q0 _ (Hids q0 Hin0)) in Hblock.
  assert (Hno : no_keys (newErrors step (formData (state w))) = false).
  { apply not_true_is_false. intros H. apply no_keys_iff in H.
    rewrite (proj1 (newErrors_nil_iff _ _) H q0 Hin0) in Hblock. discriminate. }
  exists {| state := with_errors (state w) (newErrors step (formData (state w)));
            localStorage := localStorage w;
            outputs := outputs w |}.
  split.
  { unfold nextStep, validateStep. rewrite Hstep. simpl. rewrite Hno.
    unfold commit. simpl. now rewrite number_is_refl. }
  cbn [state localStorage outputs with_errors stepIndex formData showUnsavedModal
       pendingStepIndex errors].
  do 6 (split; [reflexivity|]).
  split; [|split].
  - unfold keys. rewrite length_map. unfold newErrors.
    rewrite length_fold_record; [reflexivity | exact Hnd | reflexivity].
  - intros q Hin. rewrite lookup_newErrors, existsb_id_unanswered by assumption.
    rewrite <- (unanswered_entry q _ (Hids q Hin)).
    destruct (unanswered q (formData (state w))); split; congruence.
  - intros k H. rewrite lookup_newErrors in H.
    destruct (existsb _ _) eqn:E; [|congruence].
    apply existsb_exists in E. destruct E as (q & Hin & E).
    apply andb_true_iff in E. destruct E as [E U]. apply String.eqb_eq in E.
    exists q. split; [exact Hin|]. split; [now symmetry|].
    now apply (unanswered_entry q _ (Hids q Hin)).
Qed.

Lemma nextStep_blocked_witness :
  exists w',
    nextStep Sample.formConfig Sample.fresh = Normal w' /\
    stepIndex (state w') = stepIndex (state Sample.fresh) /\
    formData (state w') = formData (state Sample.fresh) /\
    showUnsavedModal (state w') = showUnsavedModal (state Sample.fresh) /\
    pendingStepIndex (state w') = pendingStepIndex (state Sample.fresh) /\
    localStorage w' = localStorage Sample.fresh /\
    outputs w' = outputs Sample.fresh /\
    List.length (keys (errors (state w'))) =
      List.length (filter (fun q => unanswered q (formData (state Sample.fresh)))
                          (questions Sample.lifestyle)) /\
    (forall q, In q (questions Sample.lifestyle) ->
       (lookup (errors (state w')) (id q) = Some required_message <->
        is_required q = true /\ isVisible q (formData (state Sample.fresh)) = true /\
        Spec.isEmpty (Spec.get (formData (state Sample.fresh)) (id q)))) /\
    (forall k, lookup (errors (state w')) k <> None ->
       exists q, In q (questions Sample.lifestyle) /\ id q = k /\
         is_required q = true /\ isVisible q (formData (state Sample.fresh)) = true /\
         Spec.isEmpty (Spec.get (formData (state Sample.fresh)) (id q))).
Proof.
  apply (nextStep_blocked Sample.formConfig Sample.fresh Sample.lifestyle eq_refl).
  - distinct_ids.
  - intros q [<-|[<-|[<-|[<-|[]]]]]; reflexivity.
  - exists Sample.hours. split; [now left|].
    split; [reflexivity|]. split; [reflexivity|]. now left.
Defined.

(** On a first step whose one required, visible question has the id
    [constructor] and no entry in the answer store, [nextStep] records no
    error and advances to the second step. *)
Lemma nextStep_reads_prototype :
  currentStep Sample.shadowedConfig (state Sample.fresh) = Some Sample.opening /\
  (exists q, In q (questions Sample.opening) /\
     is_required q = true /\ isVisible q (formData (state Sample.fresh)) = true /\
     Spec.isEmpty (Spec.get (formData (state Sample.fresh)) (id q))) /\
  exists w',
    nextStep Sample.shadowedConfig Sample.fresh = Normal w' /\
    stepIndex (state w') = Int 1 /\
    errors (state w') = [].
Proof.
  split; [reflexivity|]. split.
  - exists Sample.shadowed. split; [now left|].
    split; [reflexivity|]. split; [reflexivity | now left].
  - eexists. split; [reflexivity|]. split; reflexivity.
Qed.

(* ===================================================================== *)
(** * Submission *)
(* ===================================================================== *)

(** The sample's last step, fully answered, is reached by the events of a
    session that starts on empty storage. *)
Example completed_is_reached :
  (w0 <- mount Sample.formConfig None [] ;;
   w1 <- handle Sample.formConfig w0 (Edit "hours" (VStr "0-2")) ;;
   w2 <- handle Sample.formConfig w1 (Edit "smoker" (VStr "no")) ;;
   w3 <- handle Sample.formConfig w2 ClickNext ;;
   w4 <- handle Sample.formConfig w3 (Edit "name" (VStr " Ada ")) ;;
   Normal (state w4, localStorage w4))
  = Normal (with_errors (state Sample.completed) [("name", "")],
            localStorage Sample.completed).
Proof. reflexivity. Qed.

(** C5, as stated, fails: after a successful submit on the last step the
    persisted keys are gone, but the wizard is still on the last step with
    all its answers; nothing resets the step index to 0 or empties the
    answers. *)
Lemma handleSubmit_keeps_step_and_answers :
  currentStep Sample.formConfig (state Sample.completed) = Some Sample.personal /\
  newErrors Sample.personal (formData (state Sample.completed)) = [] /\
  exists w',
    handleSubmit Sample.formConfig Sample.completed = Normal w' /\
    localStorage w' = [] /\
    stepIndex (state w') = Int 1 /\
    stepIndex (state w') <> Int 0 /\
    formData (state w') = Sample.complete /\
    formData (state w') <> [].
Proof.
  split; [reflexivity|]. split; [reflexivity|].
  eexists. split; [reflexivity|].
  repeat split; discriminate.
Qed.

(** C5, amended.  When [handleSubmit] runs and validation reports no error,
    both persisted keys are removed and the full answers are emitted, while
    the step index and the answers in memory stay as they are (the errors
    are empty); when validation reports errors, they become the errors, and
    the step index, the answers, the storage and the outputs are untouched. *)
Theorem handleSubmit_spec (formConfig : FormConfig) (w : World) (step : Step) :
  currentStep formConfig (state w) = Some step ->
  (newErrors step (formData (state w)) = [] ->
   exists w',
     handleSubmit formConfig w = Normal w' /\
     lookup (localStorage w') STORAGE_KEY = None /\
     lookup (localStorage w') STEP_KEY = None /\
     (forall k, k <> STORAGE_KEY -> k <> STEP_KEY ->
        lookup (localStorage w') k = lookup (localStorage w) k) /\
     outputs w' = (outputs w ++ [console_log "Final Data:" (formData (state w));
                                 alert "Form submitted successfully!"])%list /\
     state w' = with_errors (state w) []) /\
  (newErrors step (formData (state w)) <> [] ->
   handleSubmit formConfig w =
     Normal {| state := with_errors (state w) (newErrors step (formData (state w)));
               localStorage := localStorage w;
               outputs := outputs w |}).
Proof.
  intros Hstep. unfold handleSubmit, validateStep. rewrite Hstep. simpl. split.
  - intros Hnil. rewrite Hnil. simpl.
    eexists. split; [reflexivity|].
    unfold commit. simpl. rewrite number_is_refl. simpl.
    split; [|split; [|split; [|split]]]; try reflexivity.
    + rewrite !lookup_remove. reflexivity.
    + rewrite !lookup_remove. now rewrite String.eqb_refl.
    + intros k H1 H2. rewrite !lookup_remove.
      destruct (String.eqb_spec k STEP_KEY); [congruence|].
      destruct (String.eqb_spec k STORAGE_KEY); [congruence|]. reflexivity.
  - intros Hne.
    replace (no_keys (newErrors step (formData (state w)))) with false.
    + unfold commit. simpl. now rewrite number_is_refl.
    + symmetry. apply not_true_is_false. intros H. now apply no_keys_iff in H.
Qed.

Lemma handleSubmit_spec_witness :
  (exists w',
     handleSubmit Sample.formConfig Sample.completed = Normal w' /\
     lookup (localStorage w') STORAGE_KEY = None /\
     lookup (localStorage w') STEP_KEY = None /\
     (forall k, k <> STORAGE_KEY -> k <> STEP_KEY ->
        lookup (localStorage w') k = lookup (localStorage Sample.completed) k) /\
     outputs w' = (outputs Sample.completed
                   ++ [console_log "Final Data:" (formData (state Sample.completed));
                       alert "Form submitted successfully!"])%list /\
     state w' = with_errors (state Sample.completed) []) /\
  handleSubmit Sample.formConfig Sample.onPersonal =
    Normal {| state := with_errors (state Sample.onPersonal)
                         (newErrors Sample.personal (formData (state Sample.onPersonal)));
              localStorage := localStorage Sample.onPersonal;
              outputs := outputs Sample.onPersonal |}.
Proof.
  split.
  - apply (handleSubmit_spec Sample.formConfig Sample.completed Sample.personal eq_refl).
    reflexivity.
  - apply (handleSubmit_spec Sample.formConfig Sample.onPersonal Sample.personal eq_refl).
    simpl. discriminate.
Defined.

(* ===================================================================== *)
(** * Errors across navigation *)
(* ===================================================================== *)

(** The sample's second step, entered with the first answered, is reached by
    the events of a session that starts on empty storage. *)
Example onPersonal_is_reached :
  (w0 <- mount Sample.formConfig None [] ;;
   w1 <- handle Sample.formConfig w0 (Edit "hours" (VStr "0-2")) ;;
   w2 <- handle Sample.formConfig w1 (Edit "smoker" (VStr "no")) ;;
   handle Sample.formConfig w2 ClickNext)
  = Normal Sample.onPersonal.
Proof. reflexivity. Qed.

(** C7, as stated, fails: errors recorded on the second step are still in
    the mapping after going back to the first step, and after leaving through
    the dialog's "Proceed without saving"; "name" is no question of the first
    step.  The same holds for the empty entry that an edit leaves: typing into
    "name", clearing it and pressing Back keeps the key "name" on the first
    step. *)
Lemma stale_errors_survive_navigation :
  ~ In "name" (map id (questions Sample.lifestyle)) /\
  (exists w1,
     nextStep Sample.formConfig Sample.onPersonal = Normal w1 /\
     currentStep Sample.formConfig (state (prevStep w1)) = Some Sample.lifestyle /\
     lookup (errors (state (prevStep w1))) "name" = Some required_message) /\
  (exists w1,
     navClick Sample.formConfig Sample.onPersonal 0 = Normal w1 /\
     currentStep Sample.formConfig (state (proceedWithoutSaving w1)) = Some Sample.lifestyle /\
     lookup (errors (state (proceedWithoutSaving w1))) "name" = Some required_message) /\
  currentStep Sample.formConfig
    (state (prevStep (handleChange Sample.onPersonal "name" (VStr "")))) = Some Sample.lifestyle /\
  lookup (errors (state (prevStep (handleChange Sample.onPersonal "name" (VStr ""))))) "name"
    = Some "".
Proof.
  split; [simpl; intuition discriminate|].
  split; [eexists; repeat split|].
  split; [eexists; repeat split|].
  split; reflexivity.
Qed.

Lemma newErrors_within (step : Step) (formData : object JS.value) :
  errors_within (newErrors step formData) step.
Proof.
  intros k H. rewrite lookup_newErrors in H.
  destruct (existsb _ _) eqn:E; [|congruence].
  apply existsb_exists in E. destruct E as (q & Hin & E).
  apply andb_true_iff in E. destruct E as [E _]. apply String.eqb_eq in E.
  subst k. now apply in_map.
Qed.

(** C7, amended.  A validation pass replaces the whole mapping by one computed
    from the active step alone, whose entries all belong to questions of that
    step; a Next or a navigation jump that changes the step leaves the mapping
    empty.  Back and the two proceed actions of the confirmation dialog leave
    the mapping as it is, and an edit adds the empty message under the edited
    id. *)
Theorem errors_across_transitions (formConfig : FormConfig) (w : World) (step : Step) :
  currentStep formConfig (state w) = Some step ->
  (exists ok,
     validateStep formConfig (state w)
       = Normal (with_errors (state w) (newErrors step (formData (state w))), ok) /\
     errors_within (newErrors step (formData (state w))) step) /\
  (forall w', nextStep formConfig w = Normal w' ->
     stepIndex (state w') <> stepIndex (state w) -> errors (state w') = []) /\
  (forall index w', navClick formConfig w index = Normal w' ->
     stepIndex (state w') <> stepIndex (state w) -> errors (state w') = []) /\
  errors (state (prevStep w)) = errors (state w) /\
  errors (state (proceedWithoutSaving w)) = errors (state w) /\
  errors (state (saveAndProceed w)) = errors (state w) /\
  (forall i raw, errors (state (handleChange w i raw)) = set (errors (state w)) i "").
Proof.
  intros Hstep.
  split; [|split; [|split; [|split; [|split; [|split]]]]].
  - unfold validateStep. rewrite Hstep. eexists. split; [reflexivity|].
    apply newErrors_within.
  - intros w'. unfold nextStep, validateStep. rewrite Hstep. simpl.
    destruct (no_keys _) eqn:E; intros H; inversion H; subst; simpl.
    + intros _. now apply no_keys_iff.
    + congruence.
  - intros index w'. unfold navClick, validateStep. rewrite Hstep. simpl.
    destruct (no_keys _) eqn:E; simpl; intros H; inversion H; subst; simpl.
    + intros _. now apply no_keys_iff.
    + congruence.
  - reflexivity.
  - unfold proceedWithoutSaving, proceed.
    destruct (pendingStepIndex (state w)); reflexivity.
  - unfold saveAndProceed, proceed. simpl.
    destruct (pendingStepIndex (state w)); reflexivity.
  - reflexivity.
Qed.

Lemma errors_across_transitions_witness :
  (exists ok,
     validateStep Sample.formConfig (state Sample.onPersonal)
       = Normal (with_errors (state Sample.onPersonal)
                   (newErrors Sample.personal (formData (state Sample.onPersonal))), ok) /\
     errors_within (newErrors Sample.personal (formData (state Sample.onPersonal)))
                   Sample.personal) /\
  (forall w', nextStep Sample.formConfig Sample.onPersonal = Normal w' ->
     stepIndex (state w') <> stepIndex (state Sample.onPersonal) -> errors (state w') = []) /\
  (forall index w', navClick Sample.formConfig Sample.onPersonal index = Normal w' ->
     stepIndex (state w') <> stepIndex (state Sample.onPersonal) -> errors (state w') = []) /\
  errors (state (prevStep Sample.onPersonal)) = errors (state Sample.onPersonal) /\
  errors (state (proceedWithoutSaving Sample.onPersonal)) = errors (state Sample.onPersonal) /\
  errors (state (saveAndProceed Sample.onPersonal)) = errors (state Sample.onPersonal) /\
  (forall i raw, errors (state (handleChange Sample.onPersonal i raw))
                 = set (errors (state Sample.onPersonal)) i "").
Proof.
  exact (errors_across_transitions Sample.formConfig Sample.onPersonal Sample.personal eq_refl).
Defined.

(* ===================================================================== *)
(** * The step index *)
(* ===================================================================== *)

Lemma at_index_Some_iff {A : Type} (l : list A) (z : Z) :
  (exists x, at_index l (Int z) = Some x) <-> (0 <= z < Z.of_nat (List.length l))%Z.
Proof.
  simpl. destruct (Z.leb_spec 0 z) as [Hz|Hz].
  - split.
    + intros (x & H). assert (Hlt : Z.to_nat z < List.length l).
      { apply nth_error_Some. congruence. }
      lia.
    + intros H. destruct (nth_error l (Z.to_nat z)) eqn:E; [now exists a|].
      apply nth_error_None in E. lia.
  - split; [intros (x & H); discriminate | lia].
Qed.

Lemma currentStep_valid (formConfig : FormConfig) (st : WizardState) :
  (exists step, currentStep formConfig st = Some step) <-> valid_index formConfig st.
Proof.
  unfold currentStep, valid_index. destruct (stepIndex st) as [|z].
  - split; [intros (x & H); discriminate | intros (z & H & _); discriminate].
  - rewrite at_index_Some_iff. split.
    + intros H. now exists z.
    + intros (z' & E & H). now inversion E.
Qed.

Lemma render_valid (formConfig : FormConfig) (st : WizardState) (v : View) :
  render formConfig st = Normal v -> valid_index formConfig st.
Proof.
  unfold render. intros H. apply currentStep_valid.
  destruct (currentStep formConfig st) as [step|]; [now exists step | discriminate].
Qed.

Lemma loadPersisted_pending (ls : object string) (st st' : WizardState) (b : bool) :
  loadPersisted ls st = Normal (st', b) -> pendingStepIndex st' = pendingStepIndex st.
Proof.
  unfold loadPersisted.
  destruct (lookup ls STORAGE_KEY) as [t|]; [destruct (nonempty t)|];
    try destruct (deserialize t); simpl;
    destruct (lookup ls STEP_KEY) as [u|]; try destruct (nonempty u);
    intros H; inversion H; reflexivity.
Qed.

(** A session that starts at all starts on an existing step. *)
Lemma mount_valid (formConfig : FormConfig) initialData (ls : object string) (w : World) :
  mount formConfig initialData ls = Normal w ->
  valid_index formConfig (state w) /\ valid_pending formConfig (state w).
Proof.
  unfold mount. destruct (render formConfig (initialState initialData)); try discriminate.
  simpl. destruct (loadPersisted ls (initialState initialData)) as [[st1 b]| |] eqn:L;
    try discriminate.
  simpl. destruct (render formConfig st1) eqn:R; try discriminate.
  simpl. intros H. inversion H; subst; simpl. split.
  - eapply render_valid, R.
  - intros p Hp. apply loadPersisted_pending in L. rewrite L in Hp. discriminate.
Qed.

(** The events a render offers keep the step index on an existing step, and
    none of them raises. *)
Lemma offered_event_keeps_index (formConfig : FormConfig) (w : World) (ev : event) :
  valid_index formConfig (state w) ->
  valid_pending formConfig (state w) ->
  offered formConfig (state w) ev = true ->
  exists w', handle formConfig w ev = Normal w' /\
             valid_index formConfig (state w') /\ valid_pending formConfig (state w').
Proof.
  intros Hv Hp Hoff.
  destruct (proj2 (currentStep_valid _ _) Hv) as (step & Hstep).
  unfold offered, render in Hoff. rewrite Hstep in Hoff.
  destruct Hv as (z & Hz & Hrange).
  destruct ev; simpl in Hoff; simpl.
  - (* Edit *)
    eexists. split; [reflexivity|]. split; [now exists z | exact Hp].
  - (* ClickNext *)
    apply andb_true_iff in Hoff. destruct Hoff as [Hlast _].
    apply negb_true_iff, negb_false_iff in Hlast.
    rewrite Hz in Hlast. simpl in Hlast. apply Z.ltb_lt in Hlast.
    unfold nextStep, validateStep. rewrite Hstep. simpl.
    destruct (no_keys _); (eexists; split; [reflexivity|]); simpl.
    + split; [|exact Hp]. exists (z + 1)%Z. rewrite Hz. simpl. split; [reflexivity | lia].
    + split; [now exists z | exact Hp].
  - (* ClickBack *)
    rewrite Hz in Hoff. simpl in Hoff. apply Z.ltb_lt in Hoff.
    eexists. split; [reflexivity|]. simpl. split; [|exact Hp].
    exists (z + -1)%Z. rewrite Hz. simpl. split; [reflexivity | lia].
  - (* ClickSubmit *)
    unfold handleSubmit, validateStep. rewrite Hstep. simpl.
    destruct (no_keys _); (eexists; split; [reflexivity|]); simpl;
      (split; [now exists z | exact Hp]).
  - (* ClickSaveExit *)
    unfold handleSaveExit. rewrite Hstep.
    destruct (negb _); (eexists; split; [reflexivity|]); simpl.
    + split; [now exists z | intros p H; discriminate].
    + split; [now exists z | exact Hp].
  - (* ClickNav *)
    apply Nat.ltb_lt in Hoff.
    unfold navClick, validateStep. rewrite Hstep. simpl.
    destruct (no_keys _); simpl; (eexists; split; [reflexivity|]); simpl.
    + split; [|exact Hp]. exists (Z.of_nat index). split; [reflexivity | lia].
    + split; [now exists z|].
      intros p H. inversion H. exists (Z.of_nat index). split; [reflexivity | lia].
  - (* ClickClose *)
    eexists. split; [reflexivity|]. split; [now exists z | exact Hp].
  - (* ClickProceed *)
    eexists. split; [reflexivity|].
    unfold proceedWithoutSaving, proceed.
    destruct (pendingStepIndex (state w)) as [p|] eqn:P; simpl.
    + split; [|intros p' H; simpl in H; apply Hp; congruence].
      destruct (Hp p P) as (z' & -> & Hz'). now exists z'.
    + split; [now exists z | intros p H; simpl in H; congruence].
  - (* ClickSaveAndProceed *)
    eexists. split; [reflexivity|].
    unfold saveAndProceed, proceed. simpl.
    destruct (pendingStepIndex (state w)) as [p|] eqn:P; simpl.
    + split; [|intros p' H; simpl in H; apply Hp; congruence].
      destruct (Hp p P) as (z' & -> & Hz'). now exists z'.
    + split; [now exists z | intros p H; simpl in H; congruence].
Qed.

Lemma reachable_invariant (formConfig : FormConfig) (w : World) :
  reachable formConfig w ->
  valid_index formConfig (state w) /\ valid_pending formConfig (state w).
Proof.
  induction 1 as [initialData ls w Hm | w ev w' Hr [Hv Hp] Hoff Hh].
  - eapply mount_valid, Hm.
  - destruct (offered_event_keeps_index formConfig w ev Hv Hp Hoff) as (w2 & E & H).
    rewrite Hh in E. inversion E. now subst.
Qed.

(** C4, as stated, fails: the controller's transitions carry no range check.
    Back on the first step yields index -1, Next on the last step yields
    [steps.length], and a persisted index that names no step is adopted as it
    is, so that the render that follows raises. *)
Lemma transitions_are_not_range_checked :
  stepIndex (state (prevStep Sample.fresh)) = Int (-1) /\
  ~ valid_index Sample.formConfig (state (prevStep Sample.fresh)) /\
  (exists w', nextStep Sample.formConfig Sample.completed = Normal w' /\
              stepIndex (state w') = Int 2 /\
              ~ valid_index Sample.formConfig (state w')) /\
  loadPersisted [(STEP_KEY, "7")] (initialState None)
    = Normal (with_stepIndex (initialState None) (Int 7), false) /\
  mount Sample.formConfig None [(STEP_KEY, "7")] = Throw TypeError.
Proof.
  split; [reflexivity|].
  split; [intros (z & E & H); inversion E; subst; simpl in H; lia|].
  split; [|split; reflexivity].
  eexists. split; [reflexivity|]. split; [reflexivity|].
  intros (z & E & H). inversion E; subst. simpl in H. lia.
Qed.

(** C4, amended.  In every world reached from a mount by events that the
    rendered controls offer (Back only after the first step, Next only before
    the last, navigation items only for existing steps, the dialog's buttons
    only while it is open), the step index names an existing step, and every
    offered event is handled without raising and leads to such a world
    again. *)
Theorem stepIndex_valid_when_reachable (formConfig : FormConfig) (w : World) :
  reachable formConfig w ->
  valid_index formConfig (state w) /\
  (forall ev, offered formConfig (state w) ev = true ->
     exists w', handle formConfig w ev = Normal w' /\
                reachable formConfig w' /\ valid_index formConfig (state w')).
Proof.
  intros Hr. destruct (reachable_invariant formConfig w Hr) as [Hv Hp].
  split; [exact Hv|].
  intros ev Hoff.
  destruct (offered_event_keeps_index formConfig w ev Hv Hp Hoff) as (w' & E & Hv' & _).
  exists w'. split; [exact E|]. split; [|exact Hv'].
  eapply reach_event; eassumption.
Qed.

Lemma stepIndex_valid_when_reachable_witness :
  valid_index Sample.formConfig (state Sample.onPersonal) /\
  (forall ev, offered Sample.formConfig (state Sample.onPersonal) ev = true ->
     exists w', handle Sample.formConfig Sample.onPersonal ev = Normal w' /\
                reachable Sample.formConfig w' /\ valid_index Sample.formConfig (state w')).
Proof.
  apply (stepIndex_valid_when_reachable Sample.formConfig Sample.onPersonal).
  eapply reach_event with (ev := ClickNext);
    [eapply reach_event with (ev := Edit "smoker" (VStr "no"));
     [eapply reach_event with (ev := Edit "hours" (VStr "0-2"));
      [eapply reach_mount with (initialData := None) (ls := []); reflexivity
      | reflexivity | reflexivity]
     | reflexivity | reflexivity]
    | reflexivity | reflexivity].
Defined.

(* ===================================================================== *)
(** * Session start *)
(* ===================================================================== *)





(* ===================================================================== *)
(** * The fuel of the JSON parser *)
(* ===================================================================== *)

Lemma skip_ws_length (s : string) : String.length (skip_ws s) <= String.length s.
Proof.
  induction s as [|c r IH]; simpl; [lia|].
  destruct (is_json_ws c); simpl; lia.
Qed.

Lemma skip_ws_cons (s : string) (c : ascii) (r : string) :
  skip_ws s = String c r -> String.length r < String.length s.
Proof.
  intros H. pose proof (skip_ws_length s) as L. rewrite H in L. simpl in L. lia.
Qed.

Lemma pcons_inv (c : ascii) (p : presult string) (t r : string) :
  pcons c p = POk t r -> exists t', p = POk t' r.
Proof. destruct p; simpl; intros H; inversion H. now eexists. Qed.

Lemma pcons_fuel (c : ascii) (p : presult string) : pcons c p = PFuel -> p = PFuel.
Proof. destruct p; simpl; congruence. Qed.

Lemma parse_chars_props (n : nat) (s : string) :
  String.length s <= n ->
  parse_chars s <> PFuel /\
  (forall t r, parse_chars s = POk t r -> String.length r < String.length s).
Proof.
  revert s. induction n as [|n IH]; intros s Hn.
  - destruct s; [|simpl in Hn; lia]. simpl. split; [discriminate | intros; discriminate].
  - destruct s as [|c r]; [simpl; split; [discriminate | intros; discriminate]|].
    simpl in Hn. cbn [parse_chars].
    destruct (code_is c 34).
    { split; [discriminate|]. intros t r0 H. inversion H. simpl. lia. }
    destruct (code_is c 92).
    { destruct r as [|e r1]; [split; [discriminate | intros; discriminate]|].
      simpl in Hn.
      destruct (code_is e 117).
      - destruct r1 as [|h1 [|h2 [|h3 [|h4 r2]]]];
          try (split; [discriminate | intros; discriminate]).
        simpl in Hn.
        destruct (hex4 h1 h2 h3 h4) as [k|]; [|split; [discriminate | intros; discriminate]].
        destruct (Nat.ltb k 256); [|split; [discriminate | intros; discriminate]].
        destruct (IH r2 ltac:(lia)) as [F L]. split.
        + intros H. apply pcons_fuel in H. contradiction.
        + intros t r0 H. apply pcons_inv in H. destruct H as (t' & H).
          apply L in H. simpl. lia.
      - destruct (unescape e); [|split; [discriminate | intros; discriminate]].
        destruct (IH r1 ltac:(lia)) as [F L]. split.
        + intros H. apply pcons_fuel in H. contradiction.
        + intros t r0 H. apply pcons_inv in H. destruct H as (t' & H).
          apply L in H. simpl. lia. }
    destruct (Nat.ltb (code c) 32); [split; [discriminate | intros; discriminate]|].
    destruct (IH r ltac:(lia)) as [F L]. split.
    + intros H. apply pcons_fuel in H. contradiction.
    + intros t r0 H. apply pcons_inv in H. destruct H as (t' & H).
      apply L in H. simpl. lia.
Qed.

Lemma parse_chars_length (s t r : string) :
  parse_chars s = POk t r -> String.length r < String.length s.
Proof. apply (parse_chars_props (String.length s) s (le_n _)). Qed.

Lemma parse_chars_fuel (s : string) : parse_chars s <> PFuel.
Proof. apply (parse_chars_props (String.length s) s (le_n _)). Qed.

Lemma digits_from_length (acc : Z) (s : string) :
  String.length (snd (digits_from acc s)) <= String.length s.
Proof.
  revert acc. induction s as [|c r IH]; intros acc; cbn [digits_from]; [simpl; lia|].
  destruct (is_digit c); cbn [snd String.length]; [|lia].
  specialize (IH (10 * acc + digit_val c)%Z). lengths.
Qed.

Lemma parse_unsigned_props (neg : bool) (u : string) :
  match u with
  | EmptyString => PSyntax
  | String d r =>
      if is_digit d then
        let '(z, rest) := if code_is d 48 then (0%Z, r) else digits_from 0 u in
        if starts_fraction_or_exponent rest then PUnmodelled
        else if (z <=? 9007199254740992)%Z
             then POk (VNum (Int (if neg then - z else z))) rest
             else PUnmodelled
      else PSyntax
  end <> PFuel /\
  (forall v r0,
     match u with
     | EmptyString => PSyntax
     | String d r =>
         if is_digit d then
           let '(z, rest) := if code_is d 48 then (0%Z, r) else digits_from 0 u in
           if starts_fraction_or_exponent rest then PUnmodelled
           else if (z <=? 9007199254740992)%Z
                then POk (VNum (Int (if neg then - z else z))) rest
                else PUnmodelled
         else PSyntax
     end = POk v r0 -> String.length r0 < String.length u).
Proof.
  destruct u as [|d r]; [dead|].
  destruct (is_digit d) eqn:D; [|dead].
  assert (E : exists z rest,
             (if code_is d 48 then (0%Z, r) else digits_from 0 (String d r)) = (z, rest) /\
             String.length rest <= String.length r).
  { destruct (code_is d 48).
    - exists 0%Z, r. split; [reflexivity | lia].
    - cbn [digits_from]. rewrite D.
      pose proof (digits_from_length (10 * 0 + digit_val d) r) as L.
      destruct (digits_from (10 * 0 + digit_val d) r) as [z rest]. simpl in L.
      exists z, rest. split; [reflexivity | exact L]. }
  destruct E as (z & rest & -> & L).
  destruct (starts_fraction_or_exponent rest); [dead|].
  destruct (z <=? 9007199254740992)%Z; [|dead].
  split; [discriminate|]. intros v r0 H. inversion H; subst. simpl. lia.
Qed.

Lemma parse_number_props (s : string) :
  parse_number s <> PFuel /\
  (forall v r, parse_number s = POk v r -> String.length r < String.length s).
Proof.
  unfold parse_number. destruct s as [|c r].
  - apply (parse_unsigned_props false EmptyString).
  - destruct (code_is c 45).
    + destruct (parse_unsigned_props true r) as [F L]. split; [exact F|].
      intros v r0 H. apply L in H. simpl. lia.
    + apply (parse_unsigned_props false (String c r)).
Qed.

Lemma strip_length (p s r : string) :
  strip p s = Some r -> String.length r + String.length p = String.length s.
Proof.
  revert s. induction p as [|a p IH]; intros s; simpl.
  - intros H. inversion H. lia.
  - destruct s as [|b s]; [discriminate|].
    destruct (Ascii.eqb a b); [|discriminate].
    intros H. apply IH in H. simpl. lia.
Qed.

(** Whatever is parsed, some text is consumed. *)
Lemma parse_shrinks (fuel : nat) :
  (forall s, shrinks (parse_value fuel s) s) /\
  (forall s, shrinks (parse_elements fuel s) s) /\
  (forall s, shrinks (parse_members fuel s) s).
Proof.
  induction fuel as [|f (IHv & IHe & IHm)].
  - repeat split; intros s a r H; discriminate.
  - split; [|split]; intros s a r H.
    + cbn [parse_value] in H.
      destruct (skip_ws s) as [|c r0] eqn:W; [discriminate|]. apply skip_ws_cons in W.
      destruct (code_is c 123).
      { destruct (skip_ws r0) as [|c' r'] eqn:W'; [discriminate|]. apply skip_ws_cons in W'.
        destruct (code_is c' 125); [inversion H; subst; lia|].
        destruct (parse_members f r0) eqn:M; try discriminate.
        apply IHm in M. inversion H; subst. lia. }
      destruct (code_is c 91).
      { destruct (skip_ws r0) as [|c' r'] eqn:W'; [discriminate|]. apply skip_ws_cons in W'.
        destruct (code_is c' 93); [inversion H; subst; lia|].
        destruct (parse_elements f r0) eqn:E; try discriminate.
        apply IHe in E. inversion H; subst. lia. }
      destruct (code_is c 34).
      { destruct (parse_chars r0) eqn:C; try discriminate.
        apply parse_chars_length in C. inversion H; subst. lia. }
      destruct (is_digit c || code_is c 45).
      { apply parse_number_props in H. simpl in H. lia. }
      destruct (strip "true" (String c r0)) eqn:S1;
        [apply strip_length in S1; inversion H; subst; simpl in S1; lia|].
      destruct (strip "false" (String c r0)) eqn:S2;
        [apply strip_length in S2; inversion H; subst; simpl in S2; lia|].
      destruct (strip "null" (String c r0)) eqn:S3;
        [apply strip_length in S3; inversion H; subst; simpl in S3; lia|].
      discriminate.
    + cbn [parse_elements] in H.
      destruct (parse_value f s) eqn:V; try discriminate. apply IHv in V.
      destruct (skip_ws rest) as [|c r'] eqn:W; [discriminate|]. apply skip_ws_cons in W.
      destruct (code_is c 44).
      { destruct (parse_elements f r') eqn:E; try discriminate.
        apply IHe in E. inversion H; subst. lia. }
      destruct (code_is c 93); [inversion H; subst; lia | discriminate].
    + cbn [parse_members] in H.
      destruct (skip_ws s) as [|q r0] eqn:W; [discriminate|]. apply skip_ws_cons in W.
      destruct (code_is q 34); [|discriminate].
      destruct (parse_chars r0) as [k r1| | |] eqn:C; try discriminate.
      apply parse_chars_length in C.
      destruct (skip_ws r1) as [|c r2] eqn:W1; [discriminate|]. apply skip_ws_cons in W1.
      destruct (code_is c 58); [|discriminate].
      destruct (parse_value f r2) as [v r3| | |] eqn:V; try discriminate. apply IHv in V.
      destruct (skip_ws r3) as [|c' r4] eqn:W3; [discriminate|]. apply skip_ws_cons in W3.
      destruct (code_is c' 44).
      { destruct (parse_members f r4) eqn:M; try discriminate.
        apply IHm in M. inversion H; subst. lia. }
      destruct (code_is c' 125); [inversion H; subst; lia | discriminate].
Qed.

(** Two units of fuel per character are enough. *)
Lemma parse_fuel (fuel : nat) :
  (forall s, 2 * String.length s + 1 <= fuel -> parse_value fuel s <> PFuel) /\
  (forall s, 2 * String.length s + 2 <= fuel -> parse_elements fuel s <> PFuel) /\
  (forall s, 2 * String.length s + 1 <= fuel -> parse_members fuel s <> PFuel).
Proof.
  induction fuel as [|f (IHv & IHe & IHm)].
  - repeat split; intros s Hf; lia.
  - split; [|split]; intros s Hf H.
    + cbn [parse_value] in H.
      destruct (skip_ws s) as [|c r0] eqn:W; [discriminate|]. apply skip_ws_cons in W.
      destruct (code_is c 123).
      { destruct (skip_ws r0) as [|c' r'] eqn:W'; [discriminate|].
        destruct (code_is c' 125); [discriminate|].
        destruct (parse_members f r0) eqn:M; try discriminate.
        revert M. apply IHm. lia. }
      destruct (code_is c 91).
      { destruct (skip_ws r0) as [|c' r'] eqn:W'; [discriminate|].
        destruct (code_is c' 93); [discriminate|].
        destruct (parse_elements f r0) eqn:E; try discriminate.
        revert E. apply IHe. lia. }
      destruct (code_is c 34).
      { destruct (parse_chars r0) eqn:C; try discriminate.
        now apply parse_chars_fuel in C. }
      destruct (is_digit c || code_is c 45).
      { now apply parse_number_props in H. }
      destruct (strip "true" (String c r0)); [discriminate|].
      destruct (strip "false" (String c r0)); [discriminate|].
      destruct (strip "null" (String c r0)); discriminate.
    + cbn [parse_elements] in H.
      destruct (parse_value f s) eqn:V; try discriminate.
      * apply (proj1 (parse_shrinks f)) in V.
        destruct (skip_ws rest) as [|c r'] eqn:W; [discriminate|]. apply skip_ws_cons in W.
        destruct (code_is c 44).
        { destruct (parse_elements f r') eqn:E; try discriminate.
          revert E. apply IHe. lia. }
        destruct (code_is c 93); discriminate.
      * revert V. apply IHv. lia.
    + cbn [parse_members] in H.
      destruct (skip_ws s) as [|q r0] eqn:W; [discriminate|]. apply skip_ws_cons in W.
      destruct (code_is q 34); [|discriminate].
      destruct (parse_chars r0) as [k r1| | |] eqn:C; try discriminate.
      * apply parse_chars_length in C.
        destruct (skip_ws r1) as [|c r2] eqn:W1; [discriminate|]. apply skip_ws_cons in W1.
        destruct (code_is c 58); [|discriminate].
        destruct (parse_value f r2) as [v r3| | |] eqn:V; try discriminate.
        -- apply (proj1 (parse_shrinks f)) in V.
           destruct (skip_ws r3) as [|c' r4] eqn:W3; [discriminate|]. apply skip_ws_cons in W3.
           destruct (code_is c' 44).
           { destruct (parse_members f r4) eqn:M; try discriminate.
             revert M. apply IHm. lia. }
           destruct (code_is c' 125); discriminate.
        -- revert V. apply IHv. lia.
      * now apply parse_chars_fuel in C.
Qed.

(** The fuel of [JSON_parse] never runs out. *)
Lemma parse_value_fuel (text : string) :
  parse_value (2 * String.length text + 1) text <> PFuel.
Proof. apply (proj1 (parse_fuel _)). lia. Qed.

(** [JSON.parse] is [Unmodelled] only when the text leaves the fragment. *)
Lemma JSON_parse_Unmodelled (text : string) :
  JSON_parse text = Unmodelled <->
  parse_value (2 * String.length text + 1) text = PUnmodelled.
Proof.
  unfold JSON_parse. pose proof (parse_value_fuel text) as F.
  destruct (parse_value _ text) as [v rest| | |]; try (split; congruence).
  destruct (skip_ws rest); split; congruence.
Qed.

(* ===================================================================== *)
(** * The draft round trip *)
(* ===================================================================== *)


Lemma append_nil_r (a : string) : a ++ "" = a.
Proof. induction a as [|x a IH]; simpl; [reflexivity | now rewrite IH]. Qed.


(** ** Strings *)





(** ** Values *)



















(** ** The answer store *)









(** A sequence of strings, with characters that need escaping, comes back as
    it was. *)
Example deserialize_serialize_sequence :
  let answers := [("tags", VArr [VStr "a"; VArr []; VStr (String dquote "b\c")]);
                  ("note", VStr (String (chr 10) "line"))] in
  deserialize (serialize answers) = Normal answers.
Proof. reflexivity. Qed.

(** Why the round trip is stated over reads: an array-index key takes its
    place before the other keys when the store is rebuilt. *)
Example deserialize_serialize_index_key :
  deserialize (serialize [("b", VStr "x"); ("1", VStr "y")])
  = Normal [("1", VStr "y"); ("b", VStr "x")].
Proof. reflexivity. Qed.

(** The exemption: a file handle comes back as an empty object, and an entry
    holding [undefined] is dropped. *)
Example deserialize_serialize_file :
  deserialize (serialize [("upload", VFile "scan.pdf"); ("gone", VUndefined)])
  = Normal [("upload", VObj [])].
Proof. reflexivity. Qed.

(** A session resumed over a written draft restores the answers and the
    step. *)
Example mount_restores_draft :
  match mount Sample.formConfig None (localStorage Sample.completed) with
  | Normal w => state w = state Sample.completed /\
                localStorage w = localStorage Sample.completed
  | _ => False
  end.
Proof. split; reflexivity. Qed.

Import Render Draft.

(* ===================================================================== *)
(** * Write normalization *)
(* ===================================================================== *)

Lemma trimStart_head (s : string) (c : ascii) (r : string) :
  trimStart s = String c r -> is_ws c = false.
Proof.
  induction s as [|a s IH]; simpl; [discriminate|].
  destruct (is_ws a) eqn:W; [exact IH|].
  intros H. inversion H. now subst.
Qed.

Lemma trimStart_fixed (c : ascii) (r : string) :
  is_ws c = false -> trimStart (String c r) = String c r.
Proof. intros W. simpl. now rewrite W. Qed.

Lemma trimEnd_head (c : ascii) (r : string) :
  is_ws c = false -> exists r', trimEnd (String c r) = String c r'.
Proof.
  intros W. simpl. destruct (trimEnd r); [rewrite W|]; eexists; reflexivity.
Qed.

Lemma trimEnd_idempotent (s : string) : trimEnd (trimEnd s) = trimEnd s.
Proof.
  induction s as [|a s IH]; simpl; [reflexivity|].
  destruct (trimEnd s) as [|b t] eqn:E.
  - destruct (is_ws a) eqn:W; simpl; [reflexivity | now rewrite W].
  - cbn [trimEnd] in *. fold trimEnd in *. 
    change (trimEnd (String a (String b t)))
      with (match trimEnd (String b t) with
            | EmptyString => if is_ws a then EmptyString else str1 a
            | r' => String a r'
            end).
    rewrite IH. reflexivity.
Qed.

Lemma trimEnd_last (s r : string) (c : ascii) :
  trimEnd s = r ++ str1 c -> is_ws c = false.
Proof.
  revert r. induction s as [|a s IH]; intros r; simpl.
  - destruct r; discriminate.
  - destruct (trimEnd s) as [|b t] eqn:E.
    + destruct (is_ws a) eqn:W.
      * destruct r; discriminate.
      * destruct r as [|x r]; simpl; intros H; inversion H; subst; [exact W|].
        destruct r; discriminate.
    + destruct r as [|x r]; simpl; intros H; inversion H; subst.
      eapply IH. eassumption.
Qed.

(** [trim] is idempotent. *)
Lemma trim_idempotent (s : string) : trim (trim s) = trim s.
Proof.
  unfold trim. destruct (trimStart s) as [|c r] eqn:E; [reflexivity|].
  pose proof (trimStart_head _ _ _ E) as W.
  destruct (trimEnd_head c r W) as (r' & E').
  rewrite E', (trimStart_fixed c r' W), <- E'. apply trimEnd_idempotent.
Qed.

Lemma trim_head (s : string) (c : ascii) (r : string) :
  trim s = String c r -> is_ws c = false.
Proof.
  unfold trim. destruct (trimStart s) as [|a t] eqn:E; [discriminate|].
  pose proof (trimStart_head _ _ _ E) as W.
  destruct (trimEnd_head a t W) as (r' & E'). rewrite E'.
  intros H. inversion H. now subst.
Qed.

(** X1. [normalizeValue] is idempotent; the string it returns neither starts
    nor ends with a white-space character, and a value that is no string is
    returned as it is. *)
Theorem normalizeValue_normal (val : JS.value) :
  normalizeValue (normalizeValue val) = normalizeValue val /\
  (forall s, normalizeValue val = VStr s ->
     (forall c r, s = String c r -> is_ws c = false) /\
     (forall r c, s = r ++ str1 c -> is_ws c = false)) /\
  ((forall s, val <> VStr s) -> normalizeValue val = val).
Proof.
  split; [|split].
  - destruct val; simpl; try reflexivity. now rewrite trim_idempotent.
  - intros s H. destruct val; simpl in H; try discriminate.
    inversion H; subst. split.
    + intros c r E. eapply trim_head, E.
    + intros r c E. unfold trim in E. eapply trimEnd_last, E.
  - intros H. destruct val; try reflexivity. now destruct (H s).
Qed.

(** X2. Emptiness does not depend on normalization: the value that
    [handleChange] stores is empty exactly when the raw value was. *)
Theorem isEmptyValue_normalizeValue (val : JS.value) :
  isEmptyValue (normalizeValue val) = isEmptyValue val.
Proof.
  destruct val; simpl; try reflexivity. now rewrite trim_idempotent.
Qed.

(* ===================================================================== *)
(** * Edits *)
(* ===================================================================== *)

Lemma keys_distinct : STEP_KEY <> STORAGE_KEY.
Proof. discriminate. Qed.

Lemma get_set (o : object JS.value) (k k' : string) (v : JS.value) :
  get (set o k v) k' = if String.eqb k' k then v else get o k'.
Proof.
  unfold get. rewrite lookup_set. now destruct (String.eqb k' k).
Qed.

(** X3. An edit stores the normalized value under the edited id and the empty
    message under the same id in the errors, writes the new answers through
    to the storage, and leaves every other answer, every other error, the
    step index, the dialog state, the other storage keys and the outputs as
    they were. *)
Theorem handleChange_spec (w : World) (i : string) (raw : JS.value) :
  let w' := handleChange w i raw in
  get (formData (state w')) i = normalizeValue raw /\
  (forall k, k <> i -> lookup (formData (state w')) k = lookup (formData (state w)) k) /\
  lookup (errors (state w')) i = Some "" /\
  (forall k, k <> i -> lookup (errors (state w')) k = lookup (errors (state w)) k) /\
  stepIndex (state w') = stepIndex (state w) /\
  showUnsavedModal (state w') = showUnsavedModal (state w) /\
  pendingStepIndex (state w') = pendingStepIndex (state w) /\
  lookup (localStorage w') STORAGE_KEY = Some (serialize (formData (state w'))) /\
  (forall k, k <> STORAGE_KEY -> lookup (localStorage w') k = lookup (localStorage w) k) /\
  outputs w' = outputs w.
Proof.
  unfold handleChange, commit. cbn [state localStorage outputs with_errors with_formData
    stepIndex formData errors showUnsavedModal pendingStepIndex].
  rewrite number_is_refl. unfold persistFormData.
  repeat split.
  - rewrite get_set, String.eqb_refl. reflexivity.
  - intros k Hk. now apply lookup_set_other.
  - apply lookup_set_same.
  - intros k Hk. now apply lookup_set_other.
  - apply lookup_set_same.
  - intros k Hk. now apply lookup_set_other.
Qed.

(** X4. An edit changes neither the visibility nor the validation outcome of
    a question with another id whose conditional, if any, reads another
    field. *)
Theorem edit_leaves_unrelated_question
  (formData : object JS.value) (i : string) (v : JS.value) (q : Question) :
  id q <> i ->
  (forall c, conditional q = Some c -> field c <> i) ->
  isVisible q (set formData i v) = isVisible q formData /\
  unanswered q (set formData i v) = unanswered q formData.
Proof.
  intros Hid Hc.
  assert (V : isVisible q (set formData i v) = isVisible q formData).
  { unfold isVisible. destruct (conditional q) as [c|] eqn:E; [|reflexivity].
    rewrite get_set. destruct (String.eqb_spec (field c) i) as [F|_]; [|reflexivity].
    now destruct (Hc c eq_refl). }
  split; [exact V|].
  unfold unanswered. rewrite V, get_set.
  destruct (String.eqb_spec (id q) i); [contradiction | reflexivity].
Qed.

Lemma edit_leaves_unrelated_question_witness :
  isVisible Sample.cigarettes (set Sample.answered "hours" (VStr "6+"))
    = isVisible Sample.cigarettes Sample.answered /\
  unanswered Sample.cigarettes (set Sample.answered "hours" (VStr "6+"))
    = unanswered Sample.cigarettes Sample.answered.
Proof.
  apply (edit_leaves_unrelated_question Sample.answered "hours" (VStr "6+") Sample.cigarettes).
  - discriminate.
  - intros c H. inversion H. discriminate.
Defined.

(** X5. After the controller field of a conditional over option strings is
    edited to a string, the dependent question is visible exactly when the
    trimmed input is one of the options; if every option carries surrounding
    white space, no edit of the controller shows the question. *)
Theorem isVisible_after_edit (w : World) (q : Question) (c : Conditional) (s : string) :
  conditional q = Some c ->
  (forall v, In v (value c) -> exists t, v = VStr t) ->
  (isVisible q (formData (state (handleChange w (field c) (VStr s)))) = true <->
   In (VStr (trim s)) (value c)) /\
  ((forall t, In (VStr t) (value c) -> trim t <> t) ->
   isVisible q (formData (state (handleChange w (field c) (VStr s)))) = false).
Proof.
  intros Hc Hstr.
  assert (E : isVisible q (formData (state (handleChange w (field c) (VStr s)))) = true <->
              In (VStr (trim s)) (value c)).
  { rewrite (isVisible_conditional q c _ Hc).
    cbn [handleChange commit state formData with_errors with_formData].
    rewrite get_set, String.eqb_refl. cbn [normalizeValue ToString].
    now apply In_map_ToString_strings. }
  split; [exact E|].
  intros Hws. apply not_true_is_false. intros Hv. apply E in Hv.
  apply (Hws _ Hv). apply trim_idempotent.
Qed.

Lemma isVisible_after_edit_witness :
  (isVisible Sample.detail
     (formData (state (handleChange Sample.fresh "hours" (VStr " 6+ ")))) = true <->
   In (VStr (trim " 6+ ")) [VStr "6+"]) /\
  ((forall t, In (VStr t) [VStr "6+"] -> trim t <> t) ->
   isVisible Sample.detail
     (formData (state (handleChange Sample.fresh "hours" (VStr " 6+ ")))) = false).
Proof.
  apply (isVisible_after_edit Sample.fresh Sample.detail
           {| field := "hours"; value := [VStr "6+"] |} " 6+ " eq_refl).
  intros v [<-|[]]. now exists "6+".
Defined.

(** X6. After an option of a radio question is chosen, the radio button of
    an option is rendered checked exactly when that option is the trimmed
    chosen one: the chosen button itself is checked only if its option
    carries no surrounding white space. *)
Theorem radioChecked_after_choice (w : World) (q : Question) (opt opt' : string) :
  let formData' := formData (state (handleChange w (id q) (VStr opt))) in
  (radioChecked q formData' opt' = true <-> opt' = trim opt) /\
  (radioChecked q formData' opt = true <-> trim opt = opt).
Proof.
  cbn zeta.
  assert (E : forall o, radioChecked q (formData (state (handleChange w (id q) (VStr opt)))) o
                        = String.eqb (trim opt) o).
  { intros o. unfold radioChecked, fieldValue.
    cbn [handleChange commit state formData with_errors with_formData].
    rewrite get_set, String.eqb_refl. reflexivity. }
  split; rewrite E, String.eqb_eq; [split; congruence | tauto].
Qed.

(** X7. An edit takes the message away from under the edited input and
    leaves the message shown under every other input. *)
Theorem errorShown_after_edit (w : World) (q q' : Question) (raw : JS.value) :
  errorShown q (errors (state (handleChange w (id q) raw))) = None /\
  (id q' <> id q ->
   errorShown q' (errors (state (handleChange w (id q) raw)))
   = errorShown q' (errors (state w))).
Proof.
  unfold errorShown. cbn [handleChange commit state errors with_errors with_formData].
  split.
  - rewrite lookup_set_same. reflexivity.
  - intros H. now rewrite lookup_set_other.
Qed.

(* ===================================================================== *)
(** * Navigation *)
(* ===================================================================== *)

Lemma no_keys_newErrors (step : Step) (formData : object JS.value) :
  no_keys (newErrors step formData) = isNextEnabled step formData.
Proof.
  rewrite isNextEnabled_forallb.
  destruct (forallb _ (questions step)) eqn:F.
  - apply no_keys_iff, newErrors_nil_iff. intros q Hq.
    rewrite forallb_forall in F. specialize (F q Hq). now apply negb_true_iff.
  - apply not_true_is_false. intros H. apply no_keys_iff in H.
    assert (G : forallb (fun q => negb (unanswered q formData)) (questions step) = true).
    { apply forallb_forall. intros q Hq.
      now rewrite (proj1 (newErrors_nil_iff _ _) H q Hq). }
    congruence.
Qed.

Lemma validateStep_gate (formConfig : FormConfig) (st : WizardState) (step : Step) :
  currentStep formConfig st = Some step ->
  validateStep formConfig st =
    Normal (with_errors st (newErrors step (formData st)), isNextEnabled step (formData st)) /\
  (isNextEnabled step (formData st) = true <-> newErrors step (formData st) = []).
Proof.
  intros Hstep. unfold validateStep. rewrite Hstep, no_keys_newErrors.
  split; [reflexivity|]. rewrite <- no_keys_newErrors. apply no_keys_iff.
Qed.




Lemma lookup_persistFormData (d : object JS.value) (ls : object string) (k : string) :
  lookup (persistFormData d ls) k =
  if String.eqb k STORAGE_KEY then Some (serialize d) else lookup ls k.
Proof. unfold persistFormData. apply lookup_set. Qed.










(** X13. [handleSaveExit] writes nothing to the storage and changes neither
    the answers, the errors nor the step.  When every visible question of
    the step, optional ones included, has an answer it reports the save and
    leaves for the exit page; when one is empty it only opens the dialog
    with no pending step, and "Proceed without saving" then leaves for the
    exit page from the same step. *)
Theorem handleSaveExit_spec (formConfig : FormConfig) (w : World) (step : Step) :
  currentStep formConfig (state w) = Some step ->
  exists w',
    handleSaveExit formConfig w = Normal w' /\
    localStorage w' = localStorage w /\
    formData (state w') = formData (state w) /\
    errors (state w') = errors (state w) /\
    stepIndex (state w') = stepIndex (state w) /\
    ((forall q, In q (visibleQuestions step (formData (state w))) ->
        isEmptyValue (get (formData (state w)) (id q)) = false) ->
     state w' = state w /\
     outputs w' = (outputs w ++ [console_log "Saved Data:" (formData (state w));
                                 alert "Progress saved!";
                                 location_href "/exit"])%list) /\
    ((exists q, In q (visibleQuestions step (formData (state w))) /\
        isEmptyValue (get (formData (state w)) (id q)) = true) ->
     outputs w' = outputs w /\
     showUnsavedModal (state w') = true /\
     pendingStepIndex (state w') = None /\
     stepIndex (state (proceedWithoutSaving w')) = stepIndex (state w) /\
     outputs (proceedWithoutSaving w') = (outputs w ++ [location_href "/exit"])%list).
Proof.
  intros Hstep. unfold handleSaveExit. rewrite Hstep.
  destruct (forallb _ (visibleQuestions step (formData (state w)))) eqn:F; cbn [negb].
  - eexists. split; [reflexivity|]. cbn [emit state localStorage outputs].
    repeat (split; [reflexivity|]). split.
    + intros _. split; reflexivity.
    + intros (q & Hq & He). rewrite forallb_forall in F. specialize (F q Hq).
      rewrite He in F. discriminate.
  - eexists. split; [reflexivity|]. unfold commit.
    cbn [state localStorage outputs stepIndex formData errors
         with_pendingStepIndex with_showUnsavedModal].
    rewrite number_is_refl. repeat (split; [reflexivity|]). split.
    + intros H. exfalso.
      assert (G : forallb (fun q => negb (isEmptyValue (get (formData (state w)) (id q))))
                    (visibleQuestions step (formData (state w))) = true).
      { apply forallb_forall. intros q Hq. now rewrite (H q Hq). }
      congruence.
    + intros _. repeat split.
Qed.

Lemma handleSaveExit_spec_witness :
  exists w',
    handleSaveExit Sample.formConfig Sample.completed = Normal w' /\
    localStorage w' = localStorage Sample.completed /\
    formData (state w') = formData (state Sample.completed) /\
    errors (state w') = errors (state Sample.completed) /\
    stepIndex (state w') = stepIndex (state Sample.completed) /\
    ((forall q, In q (visibleQuestions Sample.personal (formData (state Sample.completed))) ->
        isEmptyValue (get (formData (state Sample.completed)) (id q)) = false) ->
     state w' = state Sample.completed /\
     outputs w' = (outputs Sample.completed
                   ++ [console_log "Saved Data:" (formData (state Sample.completed));
                       alert "Progress saved!";
                       location_href "/exit"])%list) /\
    ((exists q, In q (visibleQuestions Sample.personal (formData (state Sample.completed))) /\
        isEmptyValue (get (formData (state Sample.completed)) (id q)) = true) ->
     outputs w' = outputs Sample.completed /\
     showUnsavedModal (state w') = true /\
     pendingStepIndex (state w') = None /\
     stepIndex (state (proceedWithoutSaving w')) = stepIndex (state Sample.completed) /\
     outputs (proceedWithoutSaving w') =
       (outputs Sample.completed ++ [location_href "/exit"])%list).
Proof.
  exact (handleSaveExit_spec Sample.formConfig Sample.completed Sample.personal eq_refl).
Defined.

(** The gate of Next and the condition of Save & Exit differ: on the sample's
    last step with the name given and no file chosen, Next is enabled while
    Save & Exit asks for confirmation. *)
Example saveExit_stricter_than_next :
  isNextEnabled Sample.personal Sample.complete = true /\
  exists w', handleSaveExit Sample.formConfig Sample.completed = Normal w' /\
             showUnsavedModal (state w') = true /\ outputs w' = [].
Proof. split; [reflexivity|]. eexists. repeat split. Qed.

(* ===================================================================== *)
(** * Write-through *)
(* ===================================================================== *)


Lemma replace_same_value {A : Type} (o : object A) (k : string) (v : A) :
  lookup o k = Some v -> replace o k v = o.
Proof.
  induction o as [|[k0 v0] r IH]; simpl; [discriminate|].
  destruct (String.eqb k k0).
  - intros H. now inversion H.
  - intros H. now rewrite IH.
Qed.

(** Writing the value a key already holds changes nothing. *)
Lemma set_same_value {A : Type} (o : object A) (k : string) (v : A) :
  lookup o k = Some v -> set o k v = o.
Proof.
  intros H. unfold set, has_own. rewrite H. now apply replace_same_value.
Qed.





(** X15. With the answers written through, "Save and proceed" does exactly
    what "Proceed without saving" does: the write it adds stores what the
    storage already holds. *)
Theorem saveAndProceed_is_proceed (w : World) :
  lookup (localStorage w) STORAGE_KEY = Some (serialize (formData (state w))) ->
  saveAndProceed w = proceedWithoutSaving w.
Proof.
  intros Hd. unfold saveAndProceed, proceedWithoutSaving.
  replace (with_localStorage w (persistFormData (formData (state w)) (localStorage w)))
    with w; [reflexivity|].
  unfold with_localStorage, persistFormData. rewrite (set_same_value _ _ _ Hd).
  now destruct w.
Qed.

Lemma saveAndProceed_is_proceed_witness :
  saveAndProceed Sample.onPersonal = proceedWithoutSaving Sample.onPersonal.
Proof.
  apply (saveAndProceed_is_proceed Sample.onPersonal). reflexivity.
Defined.

(** X16. The draft that a successful submit removed comes back with the next
    edit: the answers, with the edit, are stored again, while the step index
    stays absent from the storage. *)
Theorem edit_after_submit_restores_draft
  (formConfig : FormConfig) (w w1 : World) (step : Step) (i : string) (raw : JS.value) :
  currentStep formConfig (state w) = Some step ->
  newErrors step (formData (state w)) = [] ->
  handleSubmit formConfig w = Normal w1 ->
  cleared w1 /\
  lookup (localStorage (handleChange w1 i raw)) STORAGE_KEY
    = Some (serialize (set (formData (state w)) i (normalizeValue raw))) /\
  lookup (localStorage (handleChange w1 i raw)) STEP_KEY = None.
Proof.
  intros Hstep Hnil Hsub. unfold handleSubmit, validateStep in Hsub.
  rewrite Hstep in Hsub. cbn [bind] in Hsub. rewrite Hnil in Hsub.
  change (no_keys (@nil (string * string))) with true in Hsub. cbv iota in Hsub.
  inversion Hsub; subst w1; clear Hsub.
  unfold cleared, handleChange, commit.
  cbn [state localStorage stepIndex formData with_errors with_formData with_localStorage emit].
  rewrite !number_is_refl, !lookup_persistFormData, !lookup_remove. cbn.
  repeat split.
Qed.

Lemma edit_after_submit_restores_draft_witness :
  exists w1,
    handleSubmit Sample.formConfig Sample.completed = Normal w1 /\
    cleared w1 /\
    lookup (localStorage (handleChange w1 "name" (VStr "Bo"))) STORAGE_KEY
      = Some (serialize (set (formData (state Sample.completed)) "name"
                           (normalizeValue (VStr "Bo")))) /\
    lookup (localStorage (handleChange w1 "name" (VStr "Bo"))) STEP_KEY = None.
Proof.
  eexists. split; [reflexivity|].
  apply (edit_after_submit_restores_draft Sample.formConfig Sample.completed _
           Sample.personal "name" (VStr "Bo")); reflexivity.
Defined.

(* ===================================================================== *)
(** * Resuming a session *)
(* ===================================================================== *)

(** Reading the digits that print a decimal numeral accumulates its value. *)
Lemma digits_from_uint_acc (d : Decimal.uint) (acc : positive) :
  digits_from (Z.pos acc) (NilEmpty.string_of_uint d) = (Z.pos (Pos.of_uint_acc d acc), "").
Proof.
  revert acc. induction d; intros acc; cbn [NilEmpty.string_of_uint digits_from Pos.of_uint_acc];
    [reflexivity | ..];
    match goal with
    | |- context [is_digit ?c] => change (is_digit c) with true; cbv iota
    end;
    match goal with
    | |- digits_from ?a _ = (Z.pos (Pos.of_uint_acc _ ?p), _) =>
        replace a with (Z.pos p)
          by (match goal with
              | |- context [digit_val ?c] =>
                  let v := eval vm_compute in (digit_val c) in change (digit_val c) with v
              end; lia)
    end; apply IHd.
Qed.

Lemma digits_from_uint (d : Decimal.uint) :
  digits_from 0 (NilEmpty.string_of_uint d) = (Z.of_N (Pos.of_uint d), "").
Proof.
  induction d; cbn [NilEmpty.string_of_uint digits_from Pos.of_uint];
    [reflexivity | ..];
    match goal with
    | |- context [is_digit ?c] => change (is_digit c) with true; cbv iota
    end;
    [exact IHd | ..];
    match goal with
    | |- digits_from ?a _ = (Z.of_N (N.pos (Pos.of_uint_acc _ ?p)), _) =>
        replace a with (Z.pos p)
          by (match goal with
              | |- context [digit_val ?c] =>
                  let v := eval vm_compute in (digit_val c) in change (digit_val c) with v
              end; lia)
    end; apply digits_from_uint_acc.
Qed.

Lemma string_of_uint_head (d : Decimal.uint) :
  d <> Decimal.Nil ->
  exists c r, NilEmpty.string_of_uint d = String c r /\
              is_digit c = true /\ is_ws c = false /\
              code_is c 45 = false /\ code_is c 43 = false.
Proof.
  destruct d; [congruence|..]; intros _; eexists; eexists; repeat split.
Qed.

Lemma parseInt_digits (s : string) (c : ascii) (r : string) (z : Z) :
  s = String c r -> is_digit c = true -> is_ws c = false ->
  code_is c 45 = false -> code_is c 43 = false ->
  digits_from 0 s = (z, "") ->
  parseInt s = Int z /\ parseInt (String "-" s) = Int (- z).
Proof.
  intros -> D W M P E. unfold parseInt. split.
  - cbn [trimStart]. rewrite W, M, P. cbn [starts_with_digit]. rewrite D, E. reflexivity.
  - cbn [trimStart]. change (is_ws "-") with false. cbv iota.
    change (code_is "-" 45) with true. cbv iota.
    cbn [starts_with_digit]. rewrite D, E. reflexivity.
Qed.

Lemma parseInt_uint (d : Decimal.uint) :
  d <> Decimal.Nil ->
  parseInt (NilZero.string_of_uint d) = Int (Z.of_N (Pos.of_uint d)) /\
  parseInt (String "-" (NilZero.string_of_uint d)) = Int (- Z.of_N (Pos.of_uint d)).
Proof.
  intros Hnn.
  replace (NilZero.string_of_uint d) with (NilEmpty.string_of_uint d)
    by (destruct d; [congruence | reflexivity..]).
  destruct (string_of_uint_head d Hnn) as (c & r & Hs & D & W & M & P).
  exact (parseInt_digits _ c r _ Hs D W M P (digits_from_uint d)).
Qed.

Lemma parseInt_toString_any (n : number) : parseInt (Number_toString n) = n.
Proof.
  destruct n as [|z]; [reflexivity|].
  unfold Number_toString, decimal. destruct z as [|p|p]; [reflexivity | |];
    cbn [Z.to_int NilZero.string_of_int];
    destruct (parseInt_uint (Pos.to_uint p) (Unsigned.to_uint_nonnil p)) as [H1 H2];
    rewrite Unsigned.of_to in H1, H2; assumption.
Qed.

(** X17. What [toString] writes for a step index, [parseInt] reads back:
    every integer of the exact range, negative ones included, and NaN. *)
Theorem parseInt_toString (n : number) :
  exact n -> parseInt (Number_toString n) = n.
Proof. intros _. apply parseInt_toString_any. Qed.

Lemma parseInt_toString_witness :
  parseInt (Number_toString (Int (-12))) = Int (-12) /\
  parseInt (Number_toString NaN) = NaN.
Proof.
  split.
  - apply (parseInt_toString (Int (-12))). simpl. lia.
  - apply (parseInt_toString NaN). exact I.
Defined.






Section ReplaceFacts.
Context {A : Type}.
Implicit Types (o : object A) (k : string) (v : A).







End ReplaceFacts.




(* ===================================================================== *)
(** * The navigation items *)
(* ===================================================================== *)

Lemma length_map_indexed {A B : Type} (f : nat -> A -> B) (from : nat) (l : list A) :
  List.length (map_indexed f from l) = List.length l.
Proof.
  revert from. induction l as [|x r IH]; intros from; simpl; [reflexivity | now rewrite IH].
Qed.

Lemma filter_active_NaN (from : nat) (l : list Step) :
  filter active (map_indexed (navItem NaN) from l) = [].
Proof.
  revert from. induction l as [|x r IH]; intros from; simpl; [reflexivity | apply IH].
Qed.

Lemma filter_active_Int (z : Z) (from : nat) (l : list Step) :
  filter active (map_indexed (navItem (Int z)) from l) =
  match (if (Z.of_nat from <=? z)%Z then nth_error l (Z.to_nat z - from) else None) with
  | Some step => [navItem (Int z) (Z.to_nat z) step]
  | None => []
  end.
Proof.
  revert from. induction l as [|x r IH]; intros from.
  - simpl. destruct (Z.of_nat from <=? z)%Z; [now destruct (Z.to_nat z - from) | reflexivity].
  - cbn [map_indexed filter navItem active index_is]. rewrite IH.
    destruct (Z.eqb_spec (Z.of_nat from) z) as [E|N].
    + replace (Z.of_nat (S from) <=? z)%Z with false by (symmetry; apply Z.leb_gt; lia).
      replace (Z.of_nat from <=? z)%Z with true by (symmetry; apply Z.leb_le; lia).
      replace (Z.to_nat z - from) with 0 by lia.
      replace (Z.to_nat z) with from by lia. reflexivity.
    + destruct (Z.leb_spec (Z.of_nat (S from)) z) as [L|L].
      * replace (Z.of_nat from <=? z)%Z with true by (symmetry; apply Z.leb_le; lia).
        replace (Z.to_nat z - from) with (S (Z.to_nat z - S from)) by lia. reflexivity.
      * replace (Z.of_nat from <=? z)%Z with false by (symmetry; apply Z.leb_gt; lia).
        reflexivity.
Qed.

(** X20. The navigation has one item per step; when the step index names a
    step, exactly one item is active and it is that step's; when it names
    none, no item is active. *)
Theorem navItems_active (formConfig : FormConfig) (st : WizardState) :
  List.length (navItems formConfig st) = List.length (steps formConfig) /\
  match currentStep formConfig st with
  | Some step =>
      exists it, filter active (navItems formConfig st) = [it] /\
                 item_id it = step_id step /\ item_label it = title step
  | None => filter active (navItems formConfig st) = []
  end.
Proof.
  split; [apply length_map_indexed|].
  unfold navItems, currentStep. destruct (stepIndex st) as [|z].
  - apply filter_active_NaN.
  - rewrite filter_active_Int. cbn [at_index Z.of_nat]. rewrite Nat.sub_0_r.
    destruct (0 <=? z)%Z; [|reflexivity].
    destruct (nth_error (steps formConfig) (Z.to_nat z)) as [step|]; [|reflexivity].
    eexists. repeat split.
Qed.

(* ===================================================================== *)
(** * The inline copy against the component *)
(* ===================================================================== *)

Lemma existsb_same_value_strings (vs : list JS.value) (s : string) :
  (forall v, In v vs -> exists t, v = VStr t) ->
  existsb (same_value_zero (VStr s)) vs = includes (map ToString vs) s.
Proof.
  unfold includes. induction vs as [|v vs IH]; intros H; [reflexivity|].
  destruct (H v (or_introl eq_refl)) as (t & ->). simpl.
  rewrite IH by (intros v' Hv'; apply H; now right). reflexivity.
Qed.

Lemma existsb_same_value_undefined (vs : list JS.value) :
  (forall v, In v vs -> exists t, v = VStr t) ->
  existsb (same_value_zero VUndefined) vs = false.
Proof.
  induction vs as [|v vs IH]; intros H; [reflexivity|].
  destruct (H v (or_introl eq_refl)) as (t & ->). simpl.
  apply IH. intros v' Hv'. apply H. now right.
Qed.

(** X21. Over a conditional whose values are strings, the inline copy of
    [isVisible] agrees with the component's whenever the controller holds a
    string, and hides the question whenever the controller is unanswered. *)
Theorem AppInline_isVisible_on_strings
  (q : Question) (c : Conditional) (formData : object JS.value) :
  conditional q = Some c ->
  (forall v, In v (value c) -> exists t, v = VStr t) ->
  (forall s, get formData (field c) = VStr s ->
     AppInline.isVisible q formData = isVisible q formData) /\
  (get formData (field c) = VUndefined -> AppInline.isVisible q formData = false).
Proof.
  intros Hc Hstr. unfold AppInline.isVisible, isVisible. rewrite Hc. split.
  - intros s ->. now apply existsb_same_value_strings.
  - intros ->. now apply existsb_same_value_undefined.
Qed.

Lemma AppInline_isVisible_on_strings_witness :
  (forall s, get Sample.answered "smoker" = VStr s ->
     AppInline.isVisible Sample.cigarettes Sample.answered
     = isVisible Sample.cigarettes Sample.answered) /\
  (get Sample.answered "smoker" = VUndefined ->
   AppInline.isVisible Sample.cigarettes Sample.answered = false).
Proof.
  apply (AppInline_isVisible_on_strings Sample.cigarettes
           {| field := "smoker"; value := [VStr "yes"] |} Sample.answered eq_refl).
  intros v [<-|[]]. now exists "yes".
Defined.

Lemma AppInline_newErrors_nil (step : Step) (formData : object JS.value) :
  (forall q, In q (questions step) ->
     is_required q && AppInline.isVisible q formData
     && negb (truthy (get formData (id q))) = false) ->
  AppInline.newErrors step formData = [].
Proof.
  unfold AppInline.newErrors. generalize (@nil (string * string)).
  induction (questions step) as [|q qs IH]; intros acc H; [reflexivity|].
  cbn [fold_left]. rewrite (H q (or_introl eq_refl)).
  apply IH. intros q' Hq'. apply H. now right.
Qed.

(** X22. In the inline copy, over answers as the inputs hand them in, an
    enabled Next always passes its validation: every question of the step is
    answered, so no error is recorded. *)
Theorem AppInline_enabled_next_passes (step : Step) (formData : object JS.value) :
  (forall q, In q (questions step) -> from_input (get formData (id q))) ->
  AppInline.isNextEnabled step formData = true ->
  AppInline.newErrors step formData = [].
Proof.
  intros Hin Hen. apply AppInline_newErrors_nil. intros q Hq.
  unfold AppInline.isNextEnabled, AppInline.answeredQuestions in Hen.
  rewrite length_filter_all, forallb_forall in Hen. specialize (Hen q Hq).
  destruct (Hin q Hq) as [E|[(s & E)|(n & E)]]; rewrite E in *; simpl in *.
  - discriminate.
  - rewrite Hen. now rewrite andb_false_r.
  - now rewrite andb_false_r.
Qed.

Lemma AppInline_enabled_next_passes_witness :
  AppInline.newErrors Sample.lifestyle
    [("hours", VStr "0-2"); ("detail", VStr " "); ("smoker", VStr "no"); ("cigarettes", VStr "0")]
  = [].
Proof.
  apply (AppInline_enabled_next_passes Sample.lifestyle
           [("hours", VStr "0-2"); ("detail", VStr " "); ("smoker", VStr "no");
            ("cigarettes", VStr "0")]).
  - intros q [<-|[<-|[<-|[<-|[]]]]]; right; left; eexists; reflexivity.
  - reflexivity.
Defined.

(** X23. Over answers as the component stores them, the inline copy's Next
    gate is the stricter one: whenever it is open, the component's is. *)
Theorem AppInline_gate_stricter (step : Step) (formData : object JS.value) :
  (forall q, In q (questions step) -> entered (get formData (id q))) ->
  AppInline.isNextEnabled step formData = true ->
  isNextEnabled step formData = true.
Proof.
  intros Hin Hen. rewrite isNextEnabled_forallb. apply forallb_forall. intros q Hq.
  unfold AppInline.isNextEnabled, AppInline.answeredQuestions in Hen.
  rewrite length_filter_all, forallb_forall in Hen. specialize (Hen q Hq).
  unfold unanswered.
  destruct (Hin q Hq) as [E|[(s & E & T)|(n & E)]]; rewrite E in *; simpl in *.
  - discriminate.
  - rewrite T. apply negb_true_iff. apply negb_true_iff in Hen. rewrite Hen.
    now rewrite andb_false_r.
  - now rewrite andb_false_r.
Qed.

Lemma AppInline_gate_stricter_witness :
  isNextEnabled Sample.personal [("name", VStr "Ada"); ("upload", VFile "scan.pdf")] = true.
Proof.
  apply (AppInline_gate_stricter Sample.personal
           [("name", VStr "Ada"); ("upload", VFile "scan.pdf")]).
  - intros q [<-|[<-|[]]].
    + right. left. exists "Ada". split; reflexivity.
    + right. right. now exists "scan.pdf".
  - reflexivity.
Defined.

(* ===================================================================== *)
(** * The enabled controls *)
(* ===================================================================== *)

(** X24. A click on the Next that the render offers always advances by one
    step, onto an existing step, with empty errors and the answers as they
    were; a click on the Submit that the render offers always goes through:
    both persisted keys are removed and the answers are emitted. *)
Theorem enabled_buttons_go_through (formConfig : FormConfig) (w : World) :
  (offered formConfig (state w) ClickNext = true ->
   exists z w',
     stepIndex (state w) = Int z /\
     handle formConfig w ClickNext = Normal w' /\
     stepIndex (state w') = Int (z + 1) /\
     valid_index formConfig (state w') /\
     errors (state w') = [] /\
     formData (state w') = formData (state w)) /\
  (offered formConfig (state w) ClickSubmit = true ->
   exists w',
     handle formConfig w ClickSubmit = Normal w' /\
     cleared w' /\
     outputs w' = (outputs w ++ [console_log "Final Data:" (formData (state w));
                                 alert "Form submitted successfully!"])%list /\
     stepIndex (state w') = stepIndex (state w) /\
     formData (state w') = formData (state w)).
Proof.
  split; intros Hoff; unfold offered, render in Hoff;
    destruct (currentStep formConfig (state w)) as [step|] eqn:Hstep; try discriminate;
    cbn [lastStep nextEnabled] in Hoff; apply andb_true_iff in Hoff; destruct Hoff as [Hl Hg];
    destruct (validateStep_gate formConfig (state w) step Hstep) as [V G].
  - apply negb_true_iff, negb_false_iff in Hl.
    destruct (stepIndex (state w)) as [|z] eqn:Hz; [discriminate|].
    cbn [number_lt] in Hl. apply Z.ltb_lt in Hl.
    assert (Hv : valid_index formConfig (state w)).
    { apply currentStep_valid. now exists step. }
    destruct Hv as (z' & Hz' & Hr). rewrite Hz in Hz'. inversion Hz'; subst z'.
    exists z. eexists. split; [reflexivity|].
    cbn [handle]. unfold nextStep. rewrite V. cbn [bind]. rewrite Hg.
    split; [reflexivity|].
    cbn [commit state stepIndex errors formData with_stepIndex with_errors]. rewrite Hz.
    split; [reflexivity|]. split; [|split; [now apply G | reflexivity]].
    exists (z + 1)%Z. split; [reflexivity | lia].
  - cbn [handle]. unfold handleSubmit. rewrite V. cbn [bind]. rewrite Hg.
    eexists. split; [reflexivity|].
    unfold cleared, commit.
    cbn [state localStorage outputs stepIndex formData with_errors with_localStorage emit].
    rewrite number_is_refl, !lookup_remove. cbn. repeat split.
Qed.

(** X25. Over a step none of whose question ids names a member of
    [Object.prototype], Save & Exit is enabled exactly when some visible
    question of the step has a non-empty entry in the answer store; answers
    of hidden questions do not count, and a step without a visible question
    never enables it. *)
Theorem isSaveEnabled_spec (step : Step) (formData : object JS.value) :
  ((forall q, In q (questions step) -> inherited (id q) = false) ->
   (isSaveEnabled step formData = true <->
    exists q, In q (questions step) /\ isVisible q formData = true /\
              ~ Spec.isEmpty (Spec.get formData (id q)))) /\
  ((forall q, In q (questions step) -> isVisible q formData = false) ->
   isSaveEnabled step formData = false).
Proof.
  assert (E : isSaveEnabled step formData = true <->
              exists q, In q (questions step) /\ isVisible q formData = true /\
                        isEmptyValue (get formData (id q)) = false).
  { unfold isSaveEnabled, visibleQuestions. rewrite existsb_exists. split.
    - intros (q & Hq & Hne). apply filter_In in Hq. destruct Hq as [Hin Hv].
      exists q. split; [exact Hin|]. split; [exact Hv | now apply negb_true_iff].
    - intros (q & Hin & Hv & Hne). exists q. split; [apply filter_In; now split|].
      now apply negb_true_iff. }
  split.
  - intros Hids. rewrite E. split; intros (q & Hin & Hv & Hne); exists q;
      (split; [exact Hin|]); (split; [exact Hv|]);
      rewrite (get_Spec_get formData (id q)) in * by (right; exact (Hids q Hin)).
    + intros He. apply isEmptyValue_spec in He. congruence.
    + apply not_true_is_false. intros He. apply Hne. now apply isEmptyValue_spec.
  - intros Hh. apply not_true_is_false. intros Hs. apply E in Hs.
    destruct Hs as (q & Hin & Hv & _). rewrite (Hh q Hin) in Hv. discriminate.
Qed.

(* ===================================================================== *)
(** * An edit and a reload *)
(* ===================================================================== *)

Section KeysFacts.
Context {A : Type}.
Implicit Types (o : object A) (k : string) (v : A).


Lemma In_keys_set o k v k' : In k' (keys (set o k v)) <-> k' = k \/ In k' (keys o).
Proof.
  rewrite <- !lookup_keys, lookup_set.
  destruct (String.eqb_spec k' k) as [->|Hne].
  - split; [now left | discriminate].
  - split; [now right | intros [H|H]; [contradiction | exact H]].
Qed.



End KeysFacts.

Section EntriesFacts.
Context {A : Type}.
Implicit Types (o : object A) (k : string) (v : A).




End EntriesFacts.


